(** * spla: the operation catalogue, the operation factories and the schedule

    A shallow embedding of [src/op.cpp], [include/spla/op.hpp] and
    [include/spla/schedule.hpp].

    - Host functions are the lambda bodies handed to the [DECL_OP_*] macros in
      [register_ops]; [T_INT] is a 32-bit two's complement integer, [T_UINT] a
      32-bit unsigned integer (both as [Z], with wrap-around and undefined
      behaviour written out), [T_FLOAT] an IEEE value ([spec_float]).
    - The factories [OpUnary::make_*], [OpBinary::make_*], [OpSelect::make_*]
      are embedded statement by statement.
    - The type descriptors are defined in [type.hpp], outside the files
      embedded here: the per-type code string is a parameter [get_code]. *)

From Stdlib Require Import ZArith Lia Bool List String Ascii.
From Stdlib Require Import Floats.SpecFloat.
Import ListNotations.

Local Open Scope Z_scope.

(** ** Machine integers *)

Definition INT_MAX : Z := 2147483647.
Definition INT_MIN : Z := -2147483648.
Definition UINT_MAX : Z := 4294967295.

Definition in_int (z : Z) : Prop := INT_MIN <= z <= INT_MAX.
Definition in_uint (z : Z) : Prop := 0 <= z <= UINT_MAX.

(** What evaluating a C++ expression gives: a value, or undefined behaviour. *)
Inductive Fault : Type :=
| DivisionByZero
| SignedOverflow.

Inductive Outcome (A : Type) : Type :=
| Value (v : A)
| Undefined (why : Fault).

Arguments Value {A} v.
Arguments Undefined {A} why.

Definition bind {A B : Type} (c : Outcome A) (k : A -> Outcome B) : Outcome B :=
  match c with
  | Value v => k v
  | Undefined why => Undefined why
  end.

Notation "x <- c ;; k" := (bind c (fun x => k))
  (at level 61, c at next level, right associativity).

(** Signed arithmetic: a result outside [INT_MIN .. INT_MAX] is undefined. *)
Definition to_int (z : Z) : Outcome Z :=
  if (INT_MIN <=? z) && (z <=? INT_MAX) then Value z else Undefined SignedOverflow.

Definition int_neg (a : Z) : Outcome Z := to_int (- a).
Definition int_add (a b : Z) : Outcome Z := to_int (a + b).
Definition int_sub (a b : Z) : Outcome Z := to_int (a - b).
Definition int_mul (a b : Z) : Outcome Z := to_int (a * b).
Definition int_div (a b : Z) : Outcome Z :=
  if b =? 0 then Undefined DivisionByZero else to_int (Z.quot a b).
Definition int_abs (a : Z) : Outcome Z := to_int (Z.abs a).

(** Unsigned arithmetic wraps modulo [2^32]; only division can go wrong. *)
Definition to_uint (z : Z) : Z := z mod 4294967296.

Definition uint_neg (a : Z) : Z := to_uint (- a).
Definition uint_add (a b : Z) : Z := to_uint (a + b).
Definition uint_sub (a b : Z) : Z := to_uint (a - b).
Definition uint_mul (a b : Z) : Z := to_uint (a * b).
Definition uint_div (a b : Z) : Outcome Z :=
  if b =? 0 then Undefined DivisionByZero else Value (a / b).
Definition uint_not (a : Z) : Z := to_uint (Z.lnot a).
Definition uint_shl (a n : Z) : Z := to_uint (Z.shiftl a n).
Definition uint_shr (a n : Z) : Z := Z.shiftr a n.

(** ** Floats: the constants the select predicates compare with *)

Definition float_zero : spec_float := S754_zero false.
Definition float_one : spec_float := S754_finite false 1 0.
Definition float_minus_one : spec_float := S754_finite true 1 0.
Definition NEG_INFINITY : spec_float := S754_infinity true.

(** ** Type descriptors *)

Inductive Type_ : Type :=
| BOOL
| INT
| UINT
| FLOAT.

Definition Type_eq_dec (s t : Type_) : {s = t} + {s <> t}.
Proof. decide equality. Defined.

(** The C++ value type a descriptor stands for ([T_BOOL], [T_INT], ...). *)
Definition carrier (t : Type_) : Type :=
  match t with
  | BOOL => bool
  | INT => Z
  | UINT => Z
  | FLOAT => spec_float
  end.

(** The three domain families a factory exists for. *)
Inductive Domain : Type :=
| SignedInteger
| UnsignedInteger
| FloatingPoint.

Definition type_of (d : Domain) : Type_ :=
  match d with
  | SignedInteger => INT
  | UnsignedInteger => UINT
  | FloatingPoint => FLOAT
  end.

(** A [ref_ptr<T>]: null, or a live object. *)
Definition ref_ptr (A : Type) : Type := option A.

Local Open Scope string_scope.

(** ** Operations

    [TOpUnary<A0, R>], [TOpBinary<A0, A1, R>] and [TOpSelect<A0>]: the
    fields the factories assign, and the type getters used to build the key.
    A freshly made object has empty strings and an empty [std::function]. *)

Module OpUnary.

Record TOpUnary (A0 R : Type_) : Type := {
  name : string;
  function : option (carrier A0 -> Outcome (carrier R));
  source : string;
  key : string
}.
Arguments name {A0 R} _.
Arguments function {A0 R} _.
Arguments source {A0 R} _.
Arguments key {A0 R} _.

Definition make_ref (A0 R : Type_) : TOpUnary A0 R :=
  {| name := ""; function := None; source := ""; key := "" |}.

Definition get_type_arg_0 {A0 R : Type_} (op : TOpUnary A0 R) : Type_ := A0.
Definition get_type_res {A0 R : Type_} (op : TOpUnary A0 R) : Type_ := R.

Definition set_name {A0 R} (op : TOpUnary A0 R) (v : string) : TOpUnary A0 R :=
  {| name := v; function := function op; source := source op; key := key op |}.
Definition set_function {A0 R} (op : TOpUnary A0 R)
    (v : carrier A0 -> Outcome (carrier R)) : TOpUnary A0 R :=
  {| name := name op; function := Some v; source := source op; key := key op |}.
Definition set_source {A0 R} (op : TOpUnary A0 R) (v : string) : TOpUnary A0 R :=
  {| name := name op; function := function op; source := v; key := key op |}.
Definition set_key {A0 R} (op : TOpUnary A0 R) (v : string) : TOpUnary A0 R :=
  {| name := name op; function := function op; source := source op; key := v |}.

Section Factories.
Variable get_code : Type_ -> string.

Definition make_int (name code : string) (function : Z -> Outcome Z)
  : ref_ptr (TOpUnary INT INT) :=
  let op := make_ref INT INT in
  let op := set_name op name in
  let op := set_function op function in
  let op := set_source op code in
  let op := set_key op (OpUnary.name op ++ "_" ++ get_code (get_type_arg_0 op)
                          ++ get_code (get_type_res op)) in
  Some op.

Definition make_uint (name code : string) (function : Z -> Outcome Z)
  : ref_ptr (TOpUnary UINT UINT) :=
  let op := make_ref UINT UINT in
  let op := set_name op name in
  let op := set_function op function in
  let op := set_source op code in
  let op := set_key op (OpUnary.name op ++ "_" ++ get_code (get_type_arg_0 op)
                          ++ get_code (get_type_res op)) in
  Some op.

Definition make_float (name code : string)
    (function : spec_float -> Outcome spec_float)
  : ref_ptr (TOpUnary FLOAT FLOAT) :=
  let op := make_ref FLOAT FLOAT in
  let op := set_name op name in
  let op := set_function op function in
  let op := set_source op code in
  let op := set_key op (OpUnary.name op ++ "_" ++ get_code (get_type_arg_0 op)
                          ++ get_code (get_type_res op)) in
  Some op.

(** [make_<domain>], the factory of the family picked by [d]. *)
Definition make (d : Domain)
  : string -> string ->
    (carrier (type_of d) -> Outcome (carrier (type_of d))) ->
    ref_ptr (TOpUnary (type_of d) (type_of d)) :=
  match d with
  | SignedInteger => make_int
  | UnsignedInteger => make_uint
  | FloatingPoint => make_float
  end.
End Factories.

End OpUnary.

Module OpBinary.

Record TOpBinary (A0 A1 R : Type_) : Type := {
  name : string;
  function : option (carrier A0 -> carrier A1 -> Outcome (carrier R));
  source : string;
  key : string
}.
Arguments name {A0 A1 R} _.
Arguments function {A0 A1 R} _.
Arguments source {A0 A1 R} _.
Arguments key {A0 A1 R} _.

Definition make_ref (A0 A1 R : Type_) : TOpBinary A0 A1 R :=
  {| name := ""; function := None; source := ""; key := "" |}.

Definition get_type_arg_0 {A0 A1 R : Type_} (op : TOpBinary A0 A1 R) : Type_ := A0.
Definition get_type_arg_1 {A0 A1 R : Type_} (op : TOpBinary A0 A1 R) : Type_ := A1.
Definition get_type_res {A0 A1 R : Type_} (op : TOpBinary A0 A1 R) : Type_ := R.

Definition set_name {A0 A1 R} (op : TOpBinary A0 A1 R) (v : string)
  : TOpBinary A0 A1 R :=
  {| name := v; function := function op; source := source op; key := key op |}.
Definition set_function {A0 A1 R} (op : TOpBinary A0 A1 R)
    (v : carrier A0 -> carrier A1 -> Outcome (carrier R)) : TOpBinary A0 A1 R :=
  {| name := name op; function := Some v; source := source op; key := key op |}.
Definition set_source {A0 A1 R} (op : TOpBinary A0 A1 R) (v : string)
  : TOpBinary A0 A1 R :=
  {| name := name op; function := function op; source := v; key := key op |}.
Definition set_key {A0 A1 R} (op : TOpBinary A0 A1 R) (v : string)
  : TOpBinary A0 A1 R :=
  {| name := name op; function := function op; source := source op; key := v |}.

Section Factories.
Variable get_code : Type_ -> string.

Definition make_int (name code : string) (function : Z -> Z -> Outcome Z)
  : ref_ptr (TOpBinary INT INT INT) :=
  let op := make_ref INT INT INT in
  let op := set_name op name in
  let op := set_function op function in
  let op := set_source op code in
  let op := set_key op (OpBinary.name op ++ "_" ++ get_code (get_type_arg_0 op)
                          ++ get_code (get_type_arg_1 op)
                          ++ get_code (get_type_res op)) in
  Some op.

Definition make_uint (name code : string) (function : Z -> Z -> Outcome Z)
  : ref_ptr (TOpBinary UINT UINT UINT) :=
  let op := make_ref UINT UINT UINT in
  let op := set_name op name in
  let op := set_function op function in
  let op := set_source op code in
  let op := set_key op (OpBinary.name op ++ "_" ++ get_code (get_type_arg_0 op)
                          ++ get_code (get_type_arg_1 op)
                          ++ get_code (get_type_res op)) in
  Some op.

Definition make_float (name code : string)
    (function : spec_float -> spec_float -> Outcome spec_float)
  : ref_ptr (TOpBinary FLOAT FLOAT FLOAT) :=
  let op := make_ref FLOAT FLOAT FLOAT in
  let op := set_name op name in
  let op := set_function op function in
  let op := set_source op code in
  let op := set_key op (OpBinary.name op ++ "_" ++ get_code (get_type_arg_0 op)
                          ++ get_code (get_type_arg_1 op)
                          ++ get_code (get_type_res op)) in
  Some op.

Definition make (d : Domain)
  : string -> string ->
    (carrier (type_of d) -> carrier (type_of d) -> Outcome (carrier (type_of d))) ->
    ref_ptr (TOpBinary (type_of d) (type_of d) (type_of d)) :=
  match d with
  | SignedInteger => make_int
  | UnsignedInteger => make_uint
  | FloatingPoint => make_float
  end.
End Factories.

End OpBinary.

Module OpSelect.

Record TOpSelect (A0 : Type_) : Type := {
  name : string;
  function : option (carrier A0 -> bool);
  source : string;
  key : string
}.
Arguments name {A0} _.
Arguments function {A0} _.
Arguments source {A0} _.
Arguments key {A0} _.

Definition make_ref (A0 : Type_) : TOpSelect A0 :=
  {| name := ""; function := None; source := ""; key := "" |}.

Definition get_type_arg_0 {A0 : Type_} (op : TOpSelect A0) : Type_ := A0.
(** "Select operation with 1-arity and bool return type". *)
Definition get_type_res {A0 : Type_} (op : TOpSelect A0) : Type_ := BOOL.

Definition set_name {A0} (op : TOpSelect A0) (v : string) : TOpSelect A0 :=
  {| name := v; function := function op; source := source op; key := key op |}.
Definition set_function {A0} (op : TOpSelect A0) (v : carrier A0 -> bool)
  : TOpSelect A0 :=
  {| name := name op; function := Some v; source := source op; key := key op |}.
Definition set_source {A0} (op : TOpSelect A0) (v : string) : TOpSelect A0 :=
  {| name := name op; function := function op; source := v; key := key op |}.
Definition set_key {A0} (op : TOpSelect A0) (v : string) : TOpSelect A0 :=
  {| name := name op; function := function op; source := source op; key := v |}.

Section Factories.
Variable get_code : Type_ -> string.

Definition make_int (name code : string) (function : Z -> bool)
  : ref_ptr (TOpSelect INT) :=
  let op := make_ref INT in
  let op := set_name op name in
  let op := set_function op function in
  let op := set_source op code in
  let op := set_key op (OpSelect.name op ++ "_" ++ get_code (get_type_arg_0 op)) in
  Some op.

Definition make_uint (name code : string) (function : Z -> bool)
  : ref_ptr (TOpSelect UINT) :=
  let op := make_ref UINT in
  let op := set_name op name in
  let op := set_function op function in
  let op := set_source op code in
  let op := set_key op (OpSelect.name op ++ "_" ++ get_code (get_type_arg_0 op)) in
  Some op.

Definition make_float (name code : string) (function : spec_float -> bool)
  : ref_ptr (TOpSelect FLOAT) :=
  let op := make_ref FLOAT in
  let op := set_name op name in
  let op := set_function op function in
  let op := set_source op code in
  let op := set_key op (OpSelect.name op ++ "_" ++ get_code (get_type_arg_0 op)) in
  Some op.

Definition make (d : Domain)
  : string -> string -> (carrier (type_of d) -> bool) ->
    ref_ptr (TOpSelect (type_of d)) :=
  match d with
  | SignedInteger => make_int
  | UnsignedInteger => make_uint
  | FloatingPoint => make_float
  end.
End Factories.

End OpSelect.

Local Open Scope Z_scope.

(** ** Host functions of the built-in operations

    One definition per [DECL_OP_*] line of [register_ops], named after the
    global it fills; the body is the lambda body.  The lambdas of a
    [DECL_OP_UNA_S]/[DECL_OP_BIN_S] line take and return the line's type, those
    of a [DECL_OP_SELECT] line return [bool].  A C++ [bool] stored into an
    integer is [Z.b2z]; an integer returned as [bool] is its test against 0.
    The unary and binary _FLOAT lines (float arithmetic, [sqrt], [log], ...)
    are outside this development. *)

(** [std::min] and [std::max] behind [spla::min], [spla::max]. *)
Definition min (a b : Z) : Z := Z.min a b.
Definition max (a b : Z) : Z := Z.max a b.

(** *** Unary, T_INT and T_UINT *)

Definition IDENTITY_INT (a : Z) : Outcome Z := Value a.
Definition IDENTITY_UINT (a : Z) : Outcome Z := Value a.
Definition AINV_INT (a : Z) : Outcome Z := int_neg a.
Definition AINV_UINT (a : Z) : Outcome Z := Value (uint_neg a).
Definition MINV_INT (a : Z) : Outcome Z := int_div 1 a.
Definition MINV_UINT (a : Z) : Outcome Z := uint_div 1 a.
Definition LNOT_INT (a : Z) : Outcome Z := Value (Z.b2z (negb (negb (a =? 0)))).
Definition LNOT_UINT (a : Z) : Outcome Z := Value (Z.b2z (negb (negb (a =? 0)))).
Definition UONE_INT (a : Z) : Outcome Z := Value 1.
Definition UONE_UINT (a : Z) : Outcome Z := Value 1.
Definition ABS_INT (a : Z) : Outcome Z := int_abs a.
Definition ABS_UINT (a : Z) : Outcome Z := Value a.
Definition BNOT_INT (a : Z) : Outcome Z := Value (Z.lnot a).
Definition BNOT_UINT (a : Z) : Outcome Z := Value (uint_not a).

(** *** Binary, T_INT and T_UINT *)

Definition PLUS_INT (a b : Z) : Outcome Z := int_add a b.
Definition PLUS_UINT (a b : Z) : Outcome Z := Value (uint_add a b).
Definition MINUS_INT (a b : Z) : Outcome Z := int_sub a b.
Definition MINUS_UINT (a b : Z) : Outcome Z := Value (uint_sub a b).
Definition MULT_INT (a b : Z) : Outcome Z := int_mul a b.
Definition MULT_UINT (a b : Z) : Outcome Z := Value (uint_mul a b).
Definition DIV_INT (a b : Z) : Outcome Z := int_div a b.
Definition DIV_UINT (a b : Z) : Outcome Z := uint_div a b.

Definition MINUS_POW2_INT (a b : Z) : Outcome Z :=
  l <- int_sub a b ;; r <- int_sub a b ;; int_mul l r.
Definition MINUS_POW2_UINT (a b : Z) : Outcome Z :=
  Value (uint_mul (uint_sub a b) (uint_sub a b)).

Definition FIRST_INT (a b : Z) : Outcome Z := Value a.
Definition FIRST_UINT (a b : Z) : Outcome Z := Value a.
Definition SECOND_INT (a b : Z) : Outcome Z := Value b.
Definition SECOND_UINT (a b : Z) : Outcome Z := Value b.

Definition BONE_INT (a b : Z) : Outcome Z := Value 1.
Definition BONE_UINT (a b : Z) : Outcome Z := Value 1.

Definition MIN_INT (a b : Z) : Outcome Z := Value (min a b).
Definition MIN_UINT (a b : Z) : Outcome Z := Value (min a b).
Definition MAX_INT (a b : Z) : Outcome Z := Value (max a b).
Definition MAX_UINT (a b : Z) : Outcome Z := Value (max a b).

Definition LOR_INT (a b : Z) : Outcome Z :=
  Value (Z.b2z (negb (a =? 0) || negb (b =? 0))).
Definition LOR_UINT (a b : Z) : Outcome Z :=
  Value (Z.b2z (negb (a =? 0) || negb (b =? 0))).
Definition LAND_INT (a b : Z) : Outcome Z :=
  Value (Z.b2z (negb (a =? 0) && negb (b =? 0))).
Definition LAND_UINT (a b : Z) : Outcome Z :=
  Value (Z.b2z (negb (a =? 0) && negb (b =? 0))).

Definition BOR_INT (a b : Z) : Outcome Z := Value (Z.lor a b).
Definition BOR_UINT (a b : Z) : Outcome Z := Value (Z.lor a b).
Definition BAND_INT (a b : Z) : Outcome Z := Value (Z.land a b).
Definition BAND_UINT (a b : Z) : Outcome Z := Value (Z.land a b).
Definition BXOR_INT (a b : Z) : Outcome Z := Value (Z.lxor a b).
Definition BXOR_UINT (a b : Z) : Outcome Z := Value (Z.lxor a b).

(** *** The INT_MAX operators *)

Definition FIRST_NON_MAX_INT (a b : Z) : Outcome Z :=
  if (a =? INT_MAX) || (b =? INT_MAX) then Value INT_MAX
  else Value a.

Definition MIN_NON_MAX_INT (a b : Z) : Outcome Z :=
  if (a =? INT_MAX) || (b =? INT_MAX) then Value INT_MAX
  else Value (min a b).

Definition CONST_MAX_INT (a b : Z) : Outcome Z := Value INT_MAX.

Definition SECOND_MAX_INT (a b : Z) : Outcome Z :=
  if a =? INT_MAX then Value b
  else Value a.

Definition MIN_NON_ZERO_INT (a b : Z) : Outcome Z :=
  if a =? 0 then Value b
  else Value (min a b).

Definition S1ST_IF_SND_MAX_INT (a b : Z) : Outcome Z :=
  if b =? INT_MAX then Value a
  else Value INT_MAX.

Definition FST_MINUS_ONE_INT (a b : Z) : Outcome Z :=
  if (a =? INT_MAX) && (b =? INT_MAX) then Value INT_MAX
  else int_sub a 1.

(** *** The packed weight/value operators: 11 bits of weight, 21 of value *)

Definition SELECT_MIN_WEIGHT_UINT (a b : Z) : Outcome Z :=
  let weight_a := uint_shr a 21 in
  let weight_b := uint_shr b 21 in
  let value_a := Z.land a 0x1FFFFF in
  let value_b := Z.land b 0x1FFFFF in
  if weight_a <=? weight_b then Value (uint_add (uint_shl weight_a 21) value_a)
  else Value (uint_add (uint_shl weight_b 21) value_b).

Definition CONSTRUCT_PAIR_UINT (a b : Z) : Outcome Z :=
  let weight_a := uint_shr a 21 in
  let weight_b := uint_shr b 21 in
  let value_a := Z.land a 0x1FFFFF in
  let value_b := Z.land b 0x1FFFFF in
  Value (uint_add (uint_shl weight_b 21) value_a).

(** The three expressions both bodies are made of. *)
Definition weight_of (word : Z) : Z := uint_shr word 21.
Definition value_of (word : Z) : Z := Z.land word 0x1FFFFF.
Definition pack (weight value : Z) : Z := uint_add (uint_shl weight 21) value.
Definition unpack (word : Z) : Z * Z := (weight_of word, value_of word).

(** The packing as the specification words it: [(weight << 21) | value]. *)
Definition pack_spec (weight value : Z) : Z := Z.lor (uint_shl weight 21) value.

(** *** Select *)

Definition EQZERO_INT (a : Z) : bool := a =? 0.
Definition EQZERO_UINT (a : Z) : bool := a =? 0.
Definition EQZERO_FLOAT (a : spec_float) : bool := SFeqb a float_zero.
Definition NQZERO_INT (a : Z) : bool := negb (a =? 0).
Definition NQZERO_UINT (a : Z) : bool := negb (a =? 0).
Definition NQZERO_FLOAT (a : spec_float) : bool := negb (SFeqb a float_zero).
Definition GTZERO_INT (a : Z) : bool := a >? 0.
Definition GTZERO_UINT (a : Z) : bool := a >? 0.
Definition GTZERO_FLOAT (a : spec_float) : bool := SFltb float_zero a.
Definition GEZERO_INT (a : Z) : bool := a >=? 0.
Definition GEZERO_UINT (a : Z) : bool := a >=? 0.
Definition GEZERO_FLOAT (a : spec_float) : bool := SFleb float_zero a.
Definition LTZERO_INT (a : Z) : bool := a <? 0.
Definition LTZERO_UINT (a : Z) : bool := a <? 0.
Definition LTZERO_FLOAT (a : spec_float) : bool := SFltb a float_zero.
Definition LEZERO_INT (a : Z) : bool := a <=? 0.
Definition LEZERO_UINT (a : Z) : bool := a <=? 0.
Definition LEZERO_FLOAT (a : spec_float) : bool := SFleb a float_zero.
Definition ALWAYS_INT (a : Z) : bool := true.
Definition ALWAYS_UINT (a : Z) : bool := true.
Definition ALWAYS_FLOAT (a : spec_float) : bool := true.
Definition NEVER_INT (a : Z) : bool := false.
Definition NEVER_UINT (a : Z) : bool := false.
Definition NEVER_FLOAT (a : spec_float) : bool := false.

Definition EQUALS_MINF_FLOAT (a : spec_float) : bool := SFeqb a NEG_INFINITY.
Definition EQUALS_MAX_INT (a : Z) : bool := a =? INT_MAX.
Definition EQUALS_MAX_UINT (a : Z) : bool := a =? UINT_MAX.
Definition NEQUALS_MAX_INT (a : Z) : bool := negb (a =? INT_MAX).
Definition NEQUALS_MAX_UINT (a : Z) : bool := negb (a =? UINT_MAX).

(** ** [register_ops]

    The [DECL_OP_*] lines in source order: the global that is filled, the key
    prefix, the value type and the lambda.  (The macros themselves live in
    [core/top.hpp]; what they store as name and key is not modelled.) *)

Inductive Decl : Type :=
| DECL_OP_UNA_S (fname key_prefix : string) (T : Type_)
    (body : carrier T -> Outcome (carrier T))
| DECL_OP_BIN_S (fname key_prefix : string) (T : Type_)
    (body : carrier T -> carrier T -> Outcome (carrier T))
| DECL_OP_SELECT (fname key_prefix : string) (A0 : Type_)
    (body : carrier A0 -> bool).

Local Open Scope string_scope.

Definition register_ops : list Decl := [
  DECL_OP_UNA_S "IDENTITY_INT" "IDENSTITY" INT IDENTITY_INT;
  DECL_OP_UNA_S "IDENTITY_UINT" "IDENSTITY" UINT IDENTITY_UINT;
  DECL_OP_UNA_S "AINV_INT" "AINV" INT AINV_INT;
  DECL_OP_UNA_S "AINV_UINT" "AINV" UINT AINV_UINT;
  DECL_OP_UNA_S "MINV_INT" "MINV" INT MINV_INT;
  DECL_OP_UNA_S "MINV_UINT" "MINV" UINT MINV_UINT;
  DECL_OP_UNA_S "LNOT_INT" "LNOT" INT LNOT_INT;
  DECL_OP_UNA_S "LNOT_UINT" "LNOT" UINT LNOT_UINT;
  DECL_OP_UNA_S "UONE_INT" "UONE" INT UONE_INT;
  DECL_OP_UNA_S "UONE_UINT" "UONE" UINT UONE_UINT;
  DECL_OP_UNA_S "ABS_INT" "ABS" INT ABS_INT;
  DECL_OP_UNA_S "ABS_UINT" "ABS" UINT ABS_UINT;
  DECL_OP_UNA_S "BNOT_INT" "BNOT" INT BNOT_INT;
  DECL_OP_UNA_S "BNOT_UINT" "BNOT" UINT BNOT_UINT;

  DECL_OP_BIN_S "PLUS_INT" "PLUS" INT PLUS_INT;
  DECL_OP_BIN_S "PLUS_UINT" "PLUS" UINT PLUS_UINT;
  DECL_OP_BIN_S "MINUS_INT" "MINUS" INT MINUS_INT;
  DECL_OP_BIN_S "MINUS_UINT" "MINUS" UINT MINUS_UINT;
  DECL_OP_BIN_S "MULT_INT" "MULT" INT MULT_INT;
  DECL_OP_BIN_S "MULT_UINT" "MULT" UINT MULT_UINT;
  DECL_OP_BIN_S "DIV_INT" "DIV" INT DIV_INT;
  DECL_OP_BIN_S "DIV_UINT" "DIV" UINT DIV_UINT;
  DECL_OP_BIN_S "MINUS_POW2_INT" "MINUS_POW2" INT MINUS_POW2_INT;
  DECL_OP_BIN_S "MINUS_POW2_UINT" "MINUS_POW2" UINT MINUS_POW2_UINT;
  DECL_OP_BIN_S "FIRST_INT" "FIRST" INT FIRST_INT;
  DECL_OP_BIN_S "FIRST_UINT" "FIRST" UINT FIRST_UINT;
  DECL_OP_BIN_S "SECOND_INT" "SECOND" INT SECOND_INT;
  DECL_OP_BIN_S "SECOND_UINT" "SECOND" UINT SECOND_UINT;
  DECL_OP_BIN_S "BONE_INT" "BONE" INT BONE_INT;
  DECL_OP_BIN_S "BONE_UINT" "BONE" UINT BONE_UINT;
  DECL_OP_BIN_S "MIN_INT" "MIN" INT MIN_INT;
  DECL_OP_BIN_S "MIN_UINT" "MIN" UINT MIN_UINT;
  DECL_OP_BIN_S "MAX_INT" "MAX" INT MAX_INT;
  DECL_OP_BIN_S "MAX_UINT" "MAX" UINT MAX_UINT;
  DECL_OP_BIN_S "LOR_INT" "LOR" INT LOR_INT;
  DECL_OP_BIN_S "LOR_UINT" "LOR" UINT LOR_UINT;
  DECL_OP_BIN_S "LAND_INT" "LAND" INT LAND_INT;
  DECL_OP_BIN_S "LAND_UINT" "LAND" UINT LAND_UINT;
  DECL_OP_BIN_S "BOR_INT" "BOR" INT BOR_INT;
  DECL_OP_BIN_S "BOR_UINT" "BOR" UINT BOR_UINT;
  DECL_OP_BIN_S "BAND_INT" "BAND" INT BAND_INT;
  DECL_OP_BIN_S "BAND_UINT" "BAND" UINT BAND_UINT;
  DECL_OP_BIN_S "BXOR_INT" "BXOR" INT BXOR_INT;
  DECL_OP_BIN_S "BXOR_UINT" "BXOR" UINT BXOR_UINT;

  DECL_OP_BIN_S "FIRST_NON_MAX_INT" "FIRST_NON_MAX_INT" INT FIRST_NON_MAX_INT;
  DECL_OP_BIN_S "MIN_NON_MAX_INT" "MIN_NON_MAX_INT" INT MIN_NON_MAX_INT;
  DECL_OP_BIN_S "CONST_MAX_INT" "CONST_MAX_INT" INT CONST_MAX_INT;
  DECL_OP_BIN_S "SECOND_MAX_INT" "SECOND_MAX_INT" INT SECOND_MAX_INT;
  DECL_OP_BIN_S "MIN_NON_ZERO_INT" "MIN_NON_ZERO_INT" INT MIN_NON_ZERO_INT;
  DECL_OP_BIN_S "S1ST_IF_SND_MAX_INT" "S1ST_IF_SND_MAX_INT" INT S1ST_IF_SND_MAX_INT;
  DECL_OP_BIN_S "FST_MINUS_ONE_INT" "FST_MINUS_ONE_INT" INT FST_MINUS_ONE_INT;
  DECL_OP_BIN_S "SELECT_MIN_WEIGHT_UINT" "SELECT_MIN_WEIGHT_UINT" UINT
    SELECT_MIN_WEIGHT_UINT;
  DECL_OP_BIN_S "CONSTRUCT_PAIR_UINT" "CONSTRUCT_PAIR_UINT" UINT CONSTRUCT_PAIR_UINT;

  DECL_OP_SELECT "EQZERO_INT" "EQZERO" INT EQZERO_INT;
  DECL_OP_SELECT "EQZERO_UINT" "EQZERO" UINT EQZERO_UINT;
  DECL_OP_SELECT "EQZERO_FLOAT" "EQZERO" FLOAT EQZERO_FLOAT;
  DECL_OP_SELECT "NQZERO_INT" "NQZERO" INT NQZERO_INT;
  DECL_OP_SELECT "NQZERO_UINT" "NQZERO" UINT NQZERO_UINT;
  DECL_OP_SELECT "NQZERO_FLOAT" "NQZERO" FLOAT NQZERO_FLOAT;
  DECL_OP_SELECT "GTZERO_INT" "GTZERO" INT GTZERO_INT;
  DECL_OP_SELECT "GTZERO_UINT" "GTZERO" UINT GTZERO_UINT;
  DECL_OP_SELECT "GTZERO_FLOAT" "GTZERO" FLOAT GTZERO_FLOAT;
  DECL_OP_SELECT "GEZERO_INT" "GEZERO" INT GEZERO_INT;
  DECL_OP_SELECT "GEZERO_UINT" "GEZERO" UINT GEZERO_UINT;
  DECL_OP_SELECT "GEZERO_FLOAT" "GEZERO" FLOAT GEZERO_FLOAT;
  DECL_OP_SELECT "LTZERO_INT" "LTZERO" INT LTZERO_INT;
  DECL_OP_SELECT "LTZERO_UINT" "LTZERO" UINT LTZERO_UINT;
  DECL_OP_SELECT "LTZERO_FLOAT" "LTZERO" FLOAT LTZERO_FLOAT;
  DECL_OP_SELECT "LEZERO_INT" "LEZERO" INT LEZERO_INT;
  DECL_OP_SELECT "LEZERO_UINT" "LEZERO" UINT LEZERO_UINT;
  DECL_OP_SELECT "LEZERO_FLOAT" "LEZERO" FLOAT LEZERO_FLOAT;
  DECL_OP_SELECT "ALWAYS_INT" "ALWAYS" INT ALWAYS_INT;
  DECL_OP_SELECT "ALWAYS_UINT" "ALWAYS" UINT ALWAYS_UINT;
  DECL_OP_SELECT "ALWAYS_FLOAT" "ALWAYS" FLOAT ALWAYS_FLOAT;
  DECL_OP_SELECT "NEVER_INT" "NEVER" INT NEVER_INT;
  DECL_OP_SELECT "NEVER_UINT" "NEVER" UINT NEVER_UINT;
  DECL_OP_SELECT "NEVER_FLOAT" "NEVER" FLOAT NEVER_FLOAT;

  DECL_OP_SELECT "EQUALS_MINF_FLOAT" "EQUALS_MINF_FLOAT" FLOAT EQUALS_MINF_FLOAT;
  DECL_OP_SELECT "EQUALS_MAX_INT" "EQUALS_MAX_INT" INT EQUALS_MAX_INT;
  DECL_OP_SELECT "EQUALS_MAX_UINT" "EQUALS_MAX" UINT EQUALS_MAX_UINT;
  DECL_OP_SELECT "NEQUALS_MAX_INT" "NEQUALS_MAX" INT NEQUALS_MAX_INT;
  DECL_OP_SELECT "NEQUALS_MAX_UINT" "NEQUALS_MAX" UINT NEQUALS_MAX_UINT
].

(** Reading a declaration at a given value type (the typed down-cast). *)
Definition unary_body (T : Type_) (d : Decl)
  : option (carrier T -> Outcome (carrier T)) :=
  match d with
  | DECL_OP_UNA_S _ _ T' body =>
      match Type_eq_dec T' T with
      | left e => Some (eq_rect T' (fun t => carrier t -> Outcome (carrier t)) body T e)
      | right _ => None
      end
  | _ => None
  end.

Definition binary_body (T : Type_) (d : Decl)
  : option (carrier T -> carrier T -> Outcome (carrier T)) :=
  match d with
  | DECL_OP_BIN_S _ _ T' body =>
      match Type_eq_dec T' T with
      | left e =>
          Some (eq_rect T' (fun t => carrier t -> carrier t -> Outcome (carrier t)) body T e)
      | right _ => None
      end
  | _ => None
  end.

Definition select_body (T : Type_) (d : Decl) : option (carrier T -> bool) :=
  match d with
  | DECL_OP_SELECT _ _ A0 body =>
      match Type_eq_dec A0 T with
      | left e => Some (eq_rect A0 (fun t => carrier t -> bool) body T e)
      | right _ => None
      end
  | _ => None
  end.

Definition keep {A : Type} (o : option A) : list A :=
  match o with
  | Some a => [a]
  | None => []
  end.

(** The built-in operations of one shape and one value type. *)
Definition unary_catalog (T : Type_) : list (carrier T -> Outcome (carrier T)) :=
  flat_map (fun d => keep (unary_body T d)) register_ops.
Definition binary_catalog (T : Type_)
  : list (carrier T -> carrier T -> Outcome (carrier T)) :=
  flat_map (fun d => keep (binary_body T d)) register_ops.
Definition select_catalog (T : Type_) : list (carrier T -> bool) :=
  flat_map (fun d => keep (select_body T d)) register_ops.

(** The T_INT operators of the [INT_MAX] block of [register_ops], from
    [FIRST_NON_MAX_INT] to [FST_MINUS_ONE_INT]. *)
Definition sentinel_operators : list (Z -> Z -> Outcome Z) :=
  [FIRST_NON_MAX_INT; MIN_NON_MAX_INT; CONST_MAX_INT; SECOND_MAX_INT;
   MIN_NON_ZERO_INT; S1ST_IF_SND_MAX_INT; FST_MINUS_ONE_INT].

(** "Any sentinel operand yields a sentinel result". *)
Definition propagates_sentinel (f : Z -> Z -> Outcome Z) : Prop :=
  forall a b : Z, in_int a -> in_int b ->
    a = INT_MAX \/ b = INT_MAX -> f a b = Value INT_MAX.

(** A predicate true exactly on one value, and the negation of a predicate. *)
Definition true_exactly_on {A : Type} (p : A -> bool) (holds : A -> Prop) : Prop :=
  forall a : A, p a = true <-> holds a.
Definition pointwise_negation {A : Type} (q p : A -> bool) : Prop :=
  forall a : A, q a = negb (p a).

(** The sentinel of each family, as the select lambdas compare with it. *)
Definition is_sentinel (d : Domain) : carrier (type_of d) -> Prop :=
  match d with
  | SignedInteger => fun a => a = INT_MAX
  | UnsignedInteger => fun a => a = UINT_MAX
  | FloatingPoint => fun a => a = NEG_INFINITY
  end.

(** The catalogue has the sentinel test of family [d], and its negation. *)
Definition has_sentinel_test (d : Domain) : Prop :=
  exists p, In p (select_catalog (type_of d)) /\ true_exactly_on p (is_sentinel d).
Definition has_negated_sentinel_test (d : Domain) : Prop :=
  exists q, In q (select_catalog (type_of d)) /\
    true_exactly_on q (fun a => ~ is_sentinel d a).

(** ** Factory invocations, for statements that range over all nine factories *)

Inductive Shape : Type :=
| Unary
| Binary
| Select.

Inductive Invocation : Type :=
| InvokeUnary (d : Domain) (name code : string)
    (function : carrier (type_of d) -> Outcome (carrier (type_of d)))
| InvokeBinary (d : Domain) (name code : string)
    (function : carrier (type_of d) -> carrier (type_of d) -> Outcome (carrier (type_of d)))
| InvokeSelect (d : Domain) (name code : string)
    (function : carrier (type_of d) -> bool).

Definition shape_of (i : Invocation) : Shape :=
  match i with
  | InvokeUnary _ _ _ _ => Unary
  | InvokeBinary _ _ _ _ => Binary
  | InvokeSelect _ _ _ _ => Select
  end.

Definition domain_of (i : Invocation) : Domain :=
  match i with
  | InvokeUnary d _ _ _ | InvokeBinary d _ _ _ | InvokeSelect d _ _ _ => d
  end.

Definition name_of (i : Invocation) : string :=
  match i with
  | InvokeUnary _ name _ _ | InvokeBinary _ name _ _ | InvokeSelect _ name _ _ => name
  end.

(** The key of the object the invocation returns (nothing for a null). *)
Definition key_of (get_code : Type_ -> string) (i : Invocation) : option string :=
  match i with
  | InvokeUnary d name code function =>
      option_map OpUnary.key (OpUnary.make get_code d name code function)
  | InvokeBinary d name code function =>
      option_map OpBinary.key (OpBinary.make get_code d name code function)
  | InvokeSelect d name code function =>
      option_map OpSelect.key (OpSelect.make get_code d name code function)
  end.

(** Whether the invocation hands back an object at all. *)
Definition produces_object (get_code : Type_ -> string) (i : Invocation) : bool :=
  match key_of get_code i with
  | Some _ => true
  | None => false
  end.

(** The codes a key is built from: one per argument, then the result (for
    unary and binary), and only the argument for select. *)
Definition signature_codes (get_code : Type_ -> string) (s : Shape) (d : Domain)
  : string :=
  match s with
  | Unary => get_code (type_of d) ++ get_code (type_of d)
  | Binary => get_code (type_of d) ++ get_code (type_of d) ++ get_code (type_of d)
  | Select => get_code (type_of d)
  end.

(** Name, then the codes of every argument and of the result, as the
    specification words the key ([BOOL] being the result of a select). *)
Definition key_spec (get_code : Type_ -> string) (i : Invocation) : string :=
  match i with
  | InvokeUnary d name _ _ =>
      name ++ get_code (type_of d) ++ get_code (type_of d)
  | InvokeBinary d name _ _ =>
      name ++ get_code (type_of d) ++ get_code (type_of d) ++ get_code (type_of d)
  | InvokeSelect d name _ _ =>
      name ++ get_code (type_of d) ++ get_code BOOL
  end.

(** An assignment of codes, one letter per type, at which the statements
    that are parametric in [get_code] are instantiated. *)
Definition letter_code (t : Type_) : string :=
  match t with
  | BOOL => "B"
  | INT => "I"
  | UINT => "U"
  | FLOAT => "F"
  end.

(** What the key statements need of the type descriptors: families have
    different codes, all of one length. *)
Definition canonical_codes (get_code : Type_ -> string) : Prop :=
  (forall d1 d2 : Domain,
      get_code (type_of d1) = get_code (type_of d2) -> d1 = d2) /\
  (forall d1 d2 : Domain,
      String.length (get_code (type_of d1)) = String.length (get_code (type_of d2))).

(** ** Schedule *)

Module Schedule.

(** Modelled from the spec: the status codes ([config.hpp] is not among the
    embedded files); success and the three error kinds of section 7. *)
Inductive Status : Type :=
| Ok
| InvalidArgument
| NotSupported
| ExecutionError.

(** A bound argument, by the identity of the object it refers to. *)
Definition Object : Type := positive.
(** The execution descriptor is opaque at this layer. *)
Definition Descriptor : Type := Z.

(** The getters of [ScheduleTask]. *)
Record ScheduleTask : Type := {
  get_name : string;
  get_key : string;
  get_key_full : string;
  get_args : list Object;
  get_desc : option Descriptor
}.

Record Schedule : Type := {
  steps : list (list ScheduleTask);
  submitted : bool
}.

Definition make_schedule : Schedule := {| steps := []; submitted := false |}.

Section Builder.
(** The arity of the operation a task was made for. *)
Variable arity : ScheduleTask -> nat.
(** The external executor. *)
Variable executor : list (list ScheduleTask) -> Status.

(** Modelled from the spec: "a task whose bound-argument count does not
    match its operation's arity" (the headers declare the abstract class
    [Schedule] only; its implementation is not among the embedded files). *)
Definition malformed (task : ScheduleTask) : bool :=
  negb (Nat.eqb (List.length (get_args task)) (arity task)).

(** Modelled from the spec: [step_tasks] "appends the given collection as
    a single new step"; it "fail[s] synchronously and leave[s] the
    schedule unchanged if the task/task-collection is malformed"
    (InvalidArgument, section 7).  A submitted schedule "must not accept
    further steps": no result is specified there. *)
Definition step_tasks (s : Schedule) (tasks : list ScheduleTask)
  : option (Status * Schedule) :=
  if submitted s then None
  else if existsb malformed tasks then Some (InvalidArgument, s)
  else Some (Ok, {| steps := steps s ++ [tasks]; submitted := submitted s |}).

(** Modelled from the spec: [step_task] "appends [task] as a new step (a
    step of size one)", with the same failure rule. *)
Definition step_task (s : Schedule) (task : ScheduleTask)
  : option (Status * Schedule) :=
  step_tasks s [task].

(** Modelled from the spec: [submit] "hands [the step sequence] to the
    external executor; returns the executor's outcome"; the schedule is
    consumed once [submit] succeeds. *)
Definition submit (s : Schedule) : option (Status * Schedule) :=
  if submitted s then None
  else
    match executor (steps s) with
    | Ok => Some (Ok, {| steps := steps s; submitted := true |})
    | failure => Some (failure, s)
    end.
End Builder.

End Schedule.

(** ** The globals and the lines of [register_ops], by name

    The globals [op.cpp] defines, the [extern] declarations of [op.hpp], and
    the head of every [DECL_OP_*] line (shape, global, key prefix, value
    type), each in source order.  The float lines of shape unary and binary
    appear here by head only. *)

Definition globals : list (Shape * string) := [
  (Unary, "IDENTITY_INT");
  (Unary, "IDENTITY_UINT");
  (Unary, "IDENTITY_FLOAT");
  (Unary, "AINV_INT");
  (Unary, "AINV_UINT");
  (Unary, "AINV_FLOAT");
  (Unary, "MINV_INT");
  (Unary, "MINV_UINT");
  (Unary, "MINV_FLOAT");
  (Unary, "LNOT_INT");
  (Unary, "LNOT_UINT");
  (Unary, "LNOT_FLOAT");
  (Unary, "UONE_INT");
  (Unary, "UONE_UINT");
  (Unary, "UONE_FLOAT");
  (Unary, "ABS_INT");
  (Unary, "ABS_UINT");
  (Unary, "ABS_FLOAT");
  (Unary, "BNOT_INT");
  (Unary, "BNOT_UINT");
  (Unary, "SQRT_FLOAT");
  (Unary, "LOG_FLOAT");
  (Unary, "EXP_FLOAT");
  (Unary, "SIN_FLOAT");
  (Unary, "COS_FLOAT");
  (Unary, "TAN_FLOAT");
  (Unary, "ASIN_FLOAT");
  (Unary, "ACOS_FLOAT");
  (Unary, "ATAN_FLOAT");
  (Unary, "CEIL_FLOAT");
  (Unary, "FLOOR_FLOAT");
  (Unary, "ROUND_FLOAT");
  (Unary, "TRUNC_FLOAT");
  (Binary, "PLUS_INT");
  (Binary, "PLUS_UINT");
  (Binary, "PLUS_FLOAT");
  (Binary, "MINUS_INT");
  (Binary, "MINUS_UINT");
  (Binary, "MINUS_FLOAT");
  (Binary, "MULT_INT");
  (Binary, "MULT_UINT");
  (Binary, "MULT_FLOAT");
  (Binary, "DIV_INT");
  (Binary, "DIV_UINT");
  (Binary, "DIV_FLOAT");
  (Binary, "MINUS_POW2_INT");
  (Binary, "MINUS_POW2_UINT");
  (Binary, "MINUS_POW2_FLOAT");
  (Binary, "FIRST_INT");
  (Binary, "FIRST_UINT");
  (Binary, "FIRST_FLOAT");
  (Binary, "SECOND_INT");
  (Binary, "SECOND_UINT");
  (Binary, "SECOND_FLOAT");
  (Binary, "BONE_INT");
  (Binary, "BONE_UINT");
  (Binary, "BONE_FLOAT");
  (Binary, "MIN_INT");
  (Binary, "MIN_UINT");
  (Binary, "MIN_FLOAT");
  (Binary, "MAX_INT");
  (Binary, "MAX_UINT");
  (Binary, "MAX_FLOAT");
  (Binary, "LOR_INT");
  (Binary, "LOR_UINT");
  (Binary, "LOR_FLOAT");
  (Binary, "LAND_INT");
  (Binary, "LAND_UINT");
  (Binary, "LAND_FLOAT");
  (Binary, "BOR_INT");
  (Binary, "BOR_UINT");
  (Binary, "BAND_INT");
  (Binary, "BAND_UINT");
  (Binary, "BXOR_INT");
  (Binary, "BXOR_UINT");
  (Binary, "FIRST_NON_MAX_INT");
  (Binary, "MIN_NON_MAX_INT");
  (Binary, "CONST_MAX_INT");
  (Binary, "SECOND_MAX_INT");
  (Binary, "MIN_NON_ZERO_INT");
  (Binary, "S1ST_IF_SND_MAX_INT");
  (Binary, "FST_MINUS_ONE_INT");
  (Binary, "SELECT_MIN_WEIGHT_UINT");
  (Binary, "CONSTRUCT_PAIR_UINT");
  (Select, "EQZERO_INT");
  (Select, "EQZERO_UINT");
  (Select, "EQZERO_FLOAT");
  (Select, "NQZERO_INT");
  (Select, "NQZERO_UINT");
  (Select, "NQZERO_FLOAT");
  (Select, "GTZERO_INT");
  (Select, "GTZERO_UINT");
  (Select, "GTZERO_FLOAT");
  (Select, "GEZERO_INT");
  (Select, "GEZERO_UINT");
  (Select, "GEZERO_FLOAT");
  (Select, "LTZERO_INT");
  (Select, "LTZERO_UINT");
  (Select, "LTZERO_FLOAT");
  (Select, "LEZERO_INT");
  (Select, "LEZERO_UINT");
  (Select, "LEZERO_FLOAT");
  (Select, "ALWAYS_INT");
  (Select, "ALWAYS_UINT");
  (Select, "ALWAYS_FLOAT");
  (Select, "NEVER_INT");
  (Select, "NEVER_UINT");
  (Select, "NEVER_FLOAT");
  (Select, "EQUALS_MINF_FLOAT");
  (Select, "EQUALS_MAX_INT");
  (Select, "EQUALS_MAX_UINT");
  (Select, "NEQUALS_MAX_INT");
  (Select, "NEQUALS_MAX_UINT")
].

Definition header_externs : list (Shape * string) := [
  (Unary, "IDENTITY_INT");
  (Unary, "IDENTITY_UINT");
  (Unary, "IDENTITY_FLOAT");
  (Unary, "AINV_INT");
  (Unary, "AINV_UINT");
  (Unary, "AINV_FLOAT");
  (Unary, "MINV_INT");
  (Unary, "MINV_UINT");
  (Unary, "MINV_FLOAT");
  (Unary, "LNOT_INT");
  (Unary, "LNOT_UINT");
  (Unary, "LNOT_FLOAT");
  (Unary, "UONE_INT");
  (Unary, "UONE_UINT");
  (Unary, "UONE_FLOAT");
  (Unary, "ABS_INT");
  (Unary, "ABS_UINT");
  (Unary, "ABS_FLOAT");
  (Unary, "BNOT_INT");
  (Unary, "BNOT_UINT");
  (Unary, "SQRT_FLOAT");
  (Unary, "LOG_FLOAT");
  (Unary, "EXP_FLOAT");
  (Unary, "SIN_FLOAT");
  (Unary, "COS_FLOAT");
  (Unary, "TAN_FLOAT");
  (Unary, "ASIN_FLOAT");
  (Unary, "ACOS_FLOAT");
  (Unary, "ATAN_FLOAT");
  (Unary, "CEIL_FLOAT");
  (Unary, "FLOOR_FLOAT");
  (Unary, "ROUND_FLOAT");
  (Unary, "TRUNC_FLOAT");
  (Binary, "PLUS_INT");
  (Binary, "PLUS_UINT");
  (Binary, "PLUS_FLOAT");
  (Binary, "MINUS_INT");
  (Binary, "MINUS_UINT");
  (Binary, "MINUS_FLOAT");
  (Binary, "MULT_INT");
  (Binary, "MULT_UINT");
  (Binary, "MULT_FLOAT");
  (Binary, "DIV_INT");
  (Binary, "DIV_UINT");
  (Binary, "DIV_FLOAT");
  (Binary, "MINUS_POW2_INT");
  (Binary, "MINUS_POW2_UINT");
  (Binary, "MINUS_POW2_FLOAT");
  (Binary, "FIRST_INT");
  (Binary, "FIRST_UINT");
  (Binary, "FIRST_FLOAT");
  (Binary, "SECOND_INT");
  (Binary, "SECOND_UINT");
  (Binary, "SECOND_FLOAT");
  (Binary, "BONE_INT");
  (Binary, "BONE_UINT");
  (Binary, "BONE_FLOAT");
  (Binary, "MIN_INT");
  (Binary, "MIN_UINT");
  (Binary, "MIN_FLOAT");
  (Binary, "MAX_INT");
  (Binary, "MAX_UINT");
  (Binary, "MAX_FLOAT");
  (Binary, "LOR_INT");
  (Binary, "LOR_UINT");
  (Binary, "LOR_FLOAT");
  (Binary, "LAND_INT");
  (Binary, "LAND_UINT");
  (Binary, "LAND_FLOAT");
  (Binary, "BOR_INT");
  (Binary, "BOR_UINT");
  (Binary, "BAND_INT");
  (Binary, "BAND_UINT");
  (Binary, "BXOR_INT");
  (Binary, "BXOR_UINT");
  (Binary, "FIRST_NON_MAX_INT");
  (Binary, "MIN_NON_MAX_INT");
  (Binary, "CONST_MAX_INT");
  (Binary, "SECOND_MAX_INT");
  (Binary, "MIN_NON_ZERO_INT");
  (Binary, "S1ST_IF_SND_MAX_INT");
  (Binary, "FST_MINUS_ONE_INT");
  (Select, "EQZERO_INT");
  (Select, "EQZERO_UINT");
  (Select, "EQZERO_FLOAT");
  (Select, "NQZERO_INT");
  (Select, "NQZERO_UINT");
  (Select, "NQZERO_FLOAT");
  (Select, "GTZERO_INT");
  (Select, "GTZERO_UINT");
  (Select, "GTZERO_FLOAT");
  (Select, "GEZERO_INT");
  (Select, "GEZERO_UINT");
  (Select, "GEZERO_FLOAT");
  (Select, "LTZERO_INT");
  (Select, "LTZERO_UINT");
  (Select, "LTZERO_FLOAT");
  (Select, "LEZERO_INT");
  (Select, "LEZERO_UINT");
  (Select, "LEZERO_FLOAT");
  (Select, "ALWAYS_INT");
  (Select, "ALWAYS_UINT");
  (Select, "ALWAYS_FLOAT");
  (Select, "NEVER_INT");
  (Select, "NEVER_UINT");
  (Select, "NEVER_FLOAT");
  (Select, "EQUALS_MINF_FLOAT");
  (Select, "EQUALS_MAX_INT");
  (Select, "NEQUALS_MAX_INT")
].

Definition register_ops_lines : list (Shape * string * string * Type_) := [
  (Unary, "IDENTITY_INT", "IDENSTITY", INT);
  (Unary, "IDENTITY_UINT", "IDENSTITY", UINT);
  (Unary, "IDENTITY_FLOAT", "IDENSTITY", FLOAT);
  (Unary, "AINV_INT", "AINV", INT);
  (Unary, "AINV_UINT", "AINV", UINT);
  (Unary, "AINV_FLOAT", "AINV", FLOAT);
  (Unary, "MINV_INT", "MINV", INT);
  (Unary, "MINV_UINT", "MINV", UINT);
  (Unary, "MINV_FLOAT", "MINV", FLOAT);
  (Unary, "LNOT_INT", "LNOT", INT);
  (Unary, "LNOT_UINT", "LNOT", UINT);
  (Unary, "LNOT_FLOAT", "LNOT", FLOAT);
  (Unary, "UONE_INT", "UONE", INT);
  (Unary, "UONE_UINT", "UONE", UINT);
  (Unary, "UONE_FLOAT", "UONE", FLOAT);
  (Unary, "ABS_INT", "ABS", INT);
  (Unary, "ABS_UINT", "ABS", UINT);
  (Unary, "ABS_FLOAT", "ABS", FLOAT);
  (Unary, "BNOT_INT", "BNOT", INT);
  (Unary, "BNOT_UINT", "BNOT", UINT);
  (Unary, "SQRT_FLOAT", "SQRT", FLOAT);
  (Unary, "LOG_FLOAT", "LOG", FLOAT);
  (Unary, "EXP_FLOAT", "EXP", FLOAT);
  (Unary, "SIN_FLOAT", "SIN", FLOAT);
  (Unary, "COS_FLOAT", "COS", FLOAT);
  (Unary, "TAN_FLOAT", "TAN", FLOAT);
  (Unary, "ASIN_FLOAT", "ASIN", FLOAT);
  (Unary, "ACOS_FLOAT", "ACOS", FLOAT);
  (Unary, "ATAN_FLOAT", "ATAN", FLOAT);
  (Unary, "CEIL_FLOAT", "CEIL", FLOAT);
  (Unary, "FLOOR_FLOAT", "FLOOR", FLOAT);
  (Unary, "ROUND_FLOAT", "ROUND", FLOAT);
  (Unary, "TRUNC_FLOAT", "TRUNC", FLOAT);
  (Binary, "PLUS_INT", "PLUS", INT);
  (Binary, "PLUS_UINT", "PLUS", UINT);
  (Binary, "PLUS_FLOAT", "PLUS", FLOAT);
  (Binary, "MINUS_INT", "MINUS", INT);
  (Binary, "MINUS_UINT", "MINUS", UINT);
  (Binary, "MINUS_FLOAT", "MINUS", FLOAT);
  (Binary, "MULT_INT", "MULT", INT);
  (Binary, "MULT_UINT", "MULT", UINT);
  (Binary, "MULT_FLOAT", "MULT", FLOAT);
  (Binary, "DIV_INT", "DIV", INT);
  (Binary, "DIV_UINT", "DIV", UINT);
  (Binary, "DIV_FLOAT", "DIV", FLOAT);
  (Binary, "MINUS_POW2_INT", "MINUS_POW2", INT);
  (Binary, "MINUS_POW2_UINT", "MINUS_POW2", UINT);
  (Binary, "MINUS_POW2_FLOAT", "MINUS_POW2", FLOAT);
  (Binary, "FIRST_INT", "FIRST", INT);
  (Binary, "FIRST_UINT", "FIRST", UINT);
  (Binary, "FIRST_FLOAT", "FIRST", FLOAT);
  (Binary, "SECOND_INT", "SECOND", INT);
  (Binary, "SECOND_UINT", "SECOND", UINT);
  (Binary, "SECOND_FLOAT", "SECOND", FLOAT);
  (Binary, "BONE_INT", "BONE", INT);
  (Binary, "BONE_UINT", "BONE", UINT);
  (Binary, "BONE_FLOAT", "BONE", FLOAT);
  (Binary, "MIN_INT", "MIN", INT);
  (Binary, "MIN_UINT", "MIN", UINT);
  (Binary, "MIN_FLOAT", "MIN", FLOAT);
  (Binary, "MAX_INT", "MAX", INT);
  (Binary, "MAX_UINT", "MAX", UINT);
  (Binary, "MAX_FLOAT", "MAX", FLOAT);
  (Binary, "LOR_INT", "LOR", INT);
  (Binary, "LOR_UINT", "LOR", UINT);
  (Binary, "LOR_FLOAT", "LOR", FLOAT);
  (Binary, "LAND_INT", "LAND", INT);
  (Binary, "LAND_UINT", "LAND", UINT);
  (Binary, "LAND_FLOAT", "LAND", FLOAT);
  (Binary, "BOR_INT", "BOR", INT);
  (Binary, "BOR_UINT", "BOR", UINT);
  (Binary, "BAND_INT", "BAND", INT);
  (Binary, "BAND_UINT", "BAND", UINT);
  (Binary, "BXOR_INT", "BXOR", INT);
  (Binary, "BXOR_UINT", "BXOR", UINT);
  (Binary, "FIRST_NON_MAX_INT", "FIRST_NON_MAX_INT", INT);
  (Binary, "MIN_NON_MAX_INT", "MIN_NON_MAX_INT", INT);
  (Binary, "CONST_MAX_INT", "CONST_MAX_INT", INT);
  (Binary, "SECOND_MAX_INT", "SECOND_MAX_INT", INT);
  (Binary, "MIN_NON_ZERO_INT", "MIN_NON_ZERO_INT", INT);
  (Binary, "S1ST_IF_SND_MAX_INT", "S1ST_IF_SND_MAX_INT", INT);
  (Binary, "FST_MINUS_ONE_INT", "FST_MINUS_ONE_INT", INT);
  (Binary, "SELECT_MIN_WEIGHT_UINT", "SELECT_MIN_WEIGHT_UINT", UINT);
  (Binary, "CONSTRUCT_PAIR_UINT", "CONSTRUCT_PAIR_UINT", UINT);
  (Select, "EQZERO_INT", "EQZERO", INT);
  (Select, "EQZERO_UINT", "EQZERO", UINT);
  (Select, "EQZERO_FLOAT", "EQZERO", FLOAT);
  (Select, "NQZERO_INT", "NQZERO", INT);
  (Select, "NQZERO_UINT", "NQZERO", UINT);
  (Select, "NQZERO_FLOAT", "NQZERO", FLOAT);
  (Select, "GTZERO_INT", "GTZERO", INT);
  (Select, "GTZERO_UINT", "GTZERO", UINT);
  (Select, "GTZERO_FLOAT", "GTZERO", FLOAT);
  (Select, "GEZERO_INT", "GEZERO", INT);
  (Select, "GEZERO_UINT", "GEZERO", UINT);
  (Select, "GEZERO_FLOAT", "GEZERO", FLOAT);
  (Select, "LTZERO_INT", "LTZERO", INT);
  (Select, "LTZERO_UINT", "LTZERO", UINT);
  (Select, "LTZERO_FLOAT", "LTZERO", FLOAT);
  (Select, "LEZERO_INT", "LEZERO", INT);
  (Select, "LEZERO_UINT", "LEZERO", UINT);
  (Select, "LEZERO_FLOAT", "LEZERO", FLOAT);
  (Select, "ALWAYS_INT", "ALWAYS", INT);
  (Select, "ALWAYS_UINT", "ALWAYS", UINT);
  (Select, "ALWAYS_FLOAT", "ALWAYS", FLOAT);
  (Select, "NEVER_INT", "NEVER", INT);
  (Select, "NEVER_UINT", "NEVER", UINT);
  (Select, "NEVER_FLOAT", "NEVER", FLOAT);
  (Select, "EQUALS_MINF_FLOAT", "EQUALS_MINF_FLOAT", FLOAT);
  (Select, "EQUALS_MAX_INT", "EQUALS_MAX_INT", INT);
  (Select, "EQUALS_MAX_UINT", "EQUALS_MAX", UINT);
  (Select, "NEQUALS_MAX_INT", "NEQUALS_MAX", INT);
  (Select, "NEQUALS_MAX_UINT", "NEQUALS_MAX", UINT)
].

Definition decl_head (d : Decl) : Shape * string * string * Type_ :=
  match d with
  | DECL_OP_UNA_S fname key_prefix T _ => (Unary, fname, key_prefix, T)
  | DECL_OP_BIN_S fname key_prefix T _ => (Binary, fname, key_prefix, T)
  | DECL_OP_SELECT fname key_prefix A0 _ => (Select, fname, key_prefix, A0)
  end.

Definition line_shape (l : Shape * string * string * Type_) : Shape :=
  fst (fst (fst l)).
Definition line_fname (l : Shape * string * string * Type_) : string :=
  snd (fst (fst l)).
Definition line_prefix (l : Shape * string * string * Type_) : string :=
  snd (fst l).
Definition line_type (l : Shape * string * string * Type_) : Type_ := snd l.

(** The lines whose lambda is embedded: all but float unary and binary. *)
Definition embedded_line (l : Shape * string * string * Type_) : bool :=
  match line_shape l, line_type l with
  | Unary, FLOAT | Binary, FLOAT => false
  | _, _ => true
  end.

Definition Shape_eqb (s t : Shape) : bool :=
  match s, t with
  | Unary, Unary | Binary, Binary | Select, Select => true
  | _, _ => false
  end.

Definition Type_eqb (s t : Type_) : bool :=
  if Type_eq_dec s t then true else false.

(** The suffix a global carries for its value type. *)
Definition type_suffix (t : Type_) : string :=
  match t with
  | BOOL => "_BOOL"
  | INT => "_INT"
  | UINT => "_UINT"
  | FLOAT => "_FLOAT"
  end.

Fixpoint ends_with (suffix s : string) : bool :=
  if String.eqb s suffix then true
  else match s with
       | EmptyString => false
       | String _ rest => ends_with suffix rest
       end.

(** Running two binary host functions in a row, left- and right-nested. *)
Definition fold_left2 (f : Z -> Z -> Outcome Z) (a b c : Z) : Outcome Z :=
  x <- f a b ;; f x c.
Definition fold_right2 (f : Z -> Z -> Outcome Z) (a b c : Z) : Outcome Z :=
  y <- f b c ;; f a y.

(** No underscore occurs in the string. *)
Fixpoint no_underscore (s : string) : bool :=
  match s with
  | EmptyString => true
  | String c rest => negb (Ascii.eqb c "_") && no_underscore rest
  end.

(** Codes that cannot be mistaken for the separator of a key: not empty,
    and without underscore. *)
Definition separable_codes (get_code : Type_ -> string) : Prop :=
  forall d : Domain,
    get_code (type_of d) <> "" /\ no_underscore (get_code (type_of d)) = true.

(** All elements differ, for a boolean equality [eqb]. *)
Fixpoint distinctb {A : Type} (eqb : A -> A -> bool) (l : list A) : bool :=
  match l with
  | [] => true
  | x :: rest => negb (existsb (eqb x) rest) && distinctb eqb rest
  end.

Definition pair_eqb (g h : Shape * string) : bool :=
  Shape_eqb (fst g) (fst h) && String.eqb (snd g) (snd h).

(** Two lines with the same shape, key prefix and value type. *)
Definition same_signature (l m : Shape * string * string * Type_) : bool :=
  Shape_eqb (line_shape l) (line_shape m)
  && String.eqb (line_prefix l) (line_prefix m)
  && Type_eqb (line_type l) (line_type m).

(** * Properties *)

Local Open Scope Z_scope.

(** ** Machine integers *)

Section MachineFacts.

Lemma to_int_in_range (z : Z) : in_int z -> to_int z = Value z.
Proof.
  unfold in_int, to_int. intros [Hlo Hhi].
  apply Z.leb_le in Hlo. apply Z.leb_le in Hhi.
  now rewrite Hlo, Hhi.
Qed.

Lemma to_int_never_divides (z : Z) : to_int z <> Undefined DivisionByZero.
Proof. unfold to_int. destruct (_ && _); discriminate. Qed.

Lemma to_uint_small (z : Z) : in_uint z -> to_uint z = z.
Proof.
  unfold in_uint, to_uint, UINT_MAX. intros H. apply Z.mod_small. lia.
Qed.

Lemma to_uint_in_uint (z : Z) : in_uint (to_uint z).
Proof.
  unfold in_uint, to_uint, UINT_MAX.
  pose proof (Z.mod_pos_bound z 4294967296 ltac:(lia)). lia.
Qed.

Lemma weight_of_div (word : Z) : weight_of word = word / 2097152.
Proof.
  unfold weight_of, uint_shr. now rewrite Z.shiftr_div_pow2 by lia.
Qed.

Lemma value_of_mod (word : Z) : value_of word = word mod 2097152.
Proof.
  unfold value_of. change 0x1FFFFF with (Z.ones 21).
  now rewrite Z.land_ones by lia.
Qed.

Lemma uint_shl_21 (w : Z) : uint_shl w 21 = to_uint (w * 2097152).
Proof.
  unfold uint_shl. now rewrite Z.shiftl_mul_pow2 by lia.
Qed.

Lemma weight_of_range (word : Z) : in_uint word -> 0 <= weight_of word <= 2047.
Proof.
  unfold in_uint, UINT_MAX. intros H. rewrite weight_of_div.
  pose proof (Z.div_mod word 2097152 ltac:(lia)).
  pose proof (Z.mod_pos_bound word 2097152 ltac:(lia)). lia.
Qed.

Lemma value_of_range (word : Z) : 0 <= value_of word <= 2097151.
Proof.
  rewrite value_of_mod.
  pose proof (Z.mod_pos_bound word 2097152 ltac:(lia)). lia.
Qed.

(** Splitting a word and putting it together again gives the word back. *)
Lemma pack_unpack (word : Z) :
  in_uint word -> pack (weight_of word) (value_of word) = word.
Proof.
  intros H. unfold pack, uint_add.
  rewrite uint_shl_21, weight_of_div, value_of_mod.
  unfold in_uint, UINT_MAX in H.
  pose proof (Z.div_mod word 2097152 ltac:(lia)).
  pose proof (Z.mod_pos_bound word 2097152 ltac:(lia)).
  rewrite (to_uint_small (word / 2097152 * 2097152))
    by (unfold in_uint, UINT_MAX; lia).
  replace (word / 2097152 * 2097152 + word mod 2097152) with word by lia.
  apply to_uint_small. unfold in_uint, UINT_MAX. lia.
Qed.

Lemma pack_value (weight value : Z) :
  0 <= weight <= 2047 -> 0 <= value <= 2097151 ->
  pack weight value = weight * 2097152 + value.
Proof.
  intros Hw Hv. unfold pack, uint_add. rewrite uint_shl_21.
  rewrite (to_uint_small (weight * 2097152)) by (unfold in_uint, UINT_MAX; lia).
  apply to_uint_small. unfold in_uint, UINT_MAX. lia.
Qed.

(** The shifted weight and a 21-bit value share no bit. *)
Lemma shifted_weight_disjoint (weight value : Z) :
  0 <= value <= 2097151 -> Z.land (Z.shiftl weight 21) value = 0.
Proof.
  intros Hv. apply Z.bits_inj'. intros n Hn.
  rewrite Z.land_spec, Z.bits_0.
  destruct (Z.ltb_spec n 21) as [Hlow | Hhigh].
  - rewrite Z.shiftl_spec_low by lia. reflexivity.
  - replace value with (value mod 2 ^ 21) by (apply Z.mod_small; lia).
    rewrite Z.mod_pow2_bits_high by lia. apply andb_false_r.
Qed.

Lemma pack_spec_value (weight value : Z) :
  0 <= weight <= 2047 -> 0 <= value <= 2097151 ->
  pack_spec weight value = weight * 2097152 + value.
Proof.
  intros Hw Hv. unfold pack_spec. rewrite uint_shl_21.
  rewrite to_uint_small by (unfold in_uint, UINT_MAX; lia).
  change 2097152 with (2 ^ 21).
  rewrite <- (Z.shiftl_mul_pow2 weight 21) by lia.
  rewrite <- Z.lxor_lor by (now apply shifted_weight_disjoint).
  symmetry. apply Z.add_nocarry_lxor. now apply shifted_weight_disjoint.
Qed.

Lemma unpack_sum (weight value : Z) :
  0 <= weight <= 2047 -> 0 <= value <= 2097151 ->
  unpack (weight * 2097152 + value) = (weight, value).
Proof.
  intros Hw Hv. unfold unpack. rewrite weight_of_div, value_of_mod.
  f_equal.
  - rewrite Z.div_add_l by lia. rewrite Z.div_small by lia. lia.
  - rewrite Z.add_comm, Z.mod_add by lia. apply Z.mod_small. lia.
Qed.

End MachineFacts.

(** ** The host functions on a few inputs *)

Example AINV_UINT_wraps : AINV_UINT 1 = Value UINT_MAX.
Proof. reflexivity. Qed.

Example BNOT_UINT_zero : BNOT_UINT 0 = Value UINT_MAX.
Proof. reflexivity. Qed.

Example MINUS_POW2_UINT_wraps : MINUS_POW2_UINT 1 2 = Value 1.
Proof. reflexivity. Qed.

Example DIV_INT_truncates : DIV_INT (-7) 2 = Value (-3).
Proof. reflexivity. Qed.

Example DIV_INT_overflows : DIV_INT INT_MIN (-1) = Undefined SignedOverflow.
Proof. reflexivity. Qed.

Example ABS_INT_overflows : ABS_INT INT_MIN = Undefined SignedOverflow.
Proof. reflexivity. Qed.

Example SELECT_MIN_WEIGHT_UINT_tie :
  SELECT_MIN_WEIGHT_UINT (3 * 2097152 + 4) (3 * 2097152 + 9) = Value (3 * 2097152 + 4).
Proof. reflexivity. Qed.

Example CONSTRUCT_PAIR_UINT_mixes :
  CONSTRUCT_PAIR_UINT (3 * 2097152 + 4) (5 * 2097152 + 9) = Value (5 * 2097152 + 4).
Proof. reflexivity. Qed.

Example EQZERO_INT_on_zero : EQZERO_INT 0 = true /\ EQZERO_INT 5 = false.
Proof. split; reflexivity. Qed.

Example EQZERO_FLOAT_negative_zero : EQZERO_FLOAT (S754_zero true) = true.
Proof. reflexivity. Qed.

Example NQZERO_FLOAT_nan : NQZERO_FLOAT S754_nan = true.
Proof. reflexivity. Qed.

Example make_int_key :
  option_map OpBinary.key
    (OpBinary.make_int letter_code "PLUS" "return a + b;" PLUS_INT)
  = Some "PLUS_III"%string.
Proof. reflexivity. Qed.

(** ** The INT_MAX operators *)

Lemma FST_MINUS_ONE_INT_both : FST_MINUS_ONE_INT INT_MAX INT_MAX = Value INT_MAX.
Proof. reflexivity. Qed.

Lemma FST_MINUS_ONE_INT_otherwise (a b : Z) :
  ~ (a = INT_MAX /\ b = INT_MAX) -> FST_MINUS_ONE_INT a b = int_sub a 1.
Proof.
  intros Hnot. unfold FST_MINUS_ONE_INT.
  destruct (Z.eqb_spec a INT_MAX) as [Ha | Ha];
    destruct (Z.eqb_spec b INT_MAX) as [Hb | Hb]; simpl; try reflexivity.
  exfalso. apply Hnot. now split.
Qed.

Lemma FST_MINUS_ONE_INT_decrements (a b : Z) :
  in_int a -> INT_MIN < a -> ~ (a = INT_MAX /\ b = INT_MAX) ->
  FST_MINUS_ONE_INT a b = Value (a - 1).
Proof.
  intros Ha Hmin Hnot. rewrite FST_MINUS_ONE_INT_otherwise by assumption.
  apply to_int_in_range. unfold in_int in *. lia.
Qed.

Lemma FST_MINUS_ONE_INT_at_INT_MIN (b : Z) :
  FST_MINUS_ONE_INT INT_MIN b = Undefined SignedOverflow.
Proof. reflexivity. Qed.

Lemma either_is_max (a b : Z) :
  a = INT_MAX \/ b = INT_MAX -> (a =? INT_MAX) || (b =? INT_MAX) = true.
Proof.
  intros [-> | ->].
  - reflexivity.
  - rewrite Z.eqb_refl. apply orb_true_r.
Qed.

Lemma FIRST_NON_MAX_INT_propagates : propagates_sentinel FIRST_NON_MAX_INT.
Proof.
  intros a b _ _ H. unfold FIRST_NON_MAX_INT. now rewrite either_is_max.
Qed.

Lemma MIN_NON_MAX_INT_propagates : propagates_sentinel MIN_NON_MAX_INT.
Proof.
  intros a b _ _ H. unfold MIN_NON_MAX_INT. now rewrite either_is_max.
Qed.

Lemma sentinel_operators_registered (f : Z -> Z -> Outcome Z) :
  In f sentinel_operators -> In f (binary_catalog INT).
Proof.
  unfold sentinel_operators. simpl In at 1.
  intros H. decompose [or] H; subst; try contradiction;
    cbv [binary_catalog register_ops flat_map binary_body keep app]; simpl;
    repeat (first [left; reflexivity | right]).
Qed.

(** C2, as stated, fails: with [INT_MAX] as first operand and 0 as second,
    [SECOND_MAX_INT] returns 0, so not every operator built on the
    [INT_MAX] convention propagates the sentinel. *)
Lemma sentinel_not_always_propagated :
  ~ (forall f, In f sentinel_operators -> propagates_sentinel f).
Proof.
  intros H.
  assert (Hin : In SECOND_MAX_INT sentinel_operators)
    by (unfold sentinel_operators; simpl; auto).
  specialize (H SECOND_MAX_INT Hin INT_MAX 0).
  assert (Hval : SECOND_MAX_INT INT_MAX 0 = Value INT_MAX).
  { apply H; unfold in_int, INT_MIN, INT_MAX; [lia | lia | now left]. }
  discriminate Hval.
Qed.

(** C2, amended: [FIRST_NON_MAX_INT], [MIN_NON_MAX_INT] and [CONST_MAX_INT]
    return [INT_MAX] as soon as one operand is [INT_MAX]; every operator of
    the family returns [INT_MAX] when both operands are [INT_MAX]; with a
    single sentinel operand, [SECOND_MAX_INT] returns its second operand when
    the first is [INT_MAX], [MIN_NON_ZERO_INT] returns its first operand when
    that is not 0 and the second is [INT_MAX], [S1ST_IF_SND_MAX_INT] returns
    its first operand when the second is [INT_MAX], and [FST_MINUS_ONE_INT]
    computes [a - 1], which is the integer [a - 1] for [a] above [INT_MIN]. *)
Theorem sentinel_propagation_by_operator :
  propagates_sentinel FIRST_NON_MAX_INT /\
  propagates_sentinel MIN_NON_MAX_INT /\
  propagates_sentinel CONST_MAX_INT /\
  (forall f, In f sentinel_operators -> f INT_MAX INT_MAX = Value INT_MAX) /\
  (forall b : Z, SECOND_MAX_INT INT_MAX b = Value b) /\
  (forall a : Z, in_int a -> a <> 0 -> MIN_NON_ZERO_INT a INT_MAX = Value a) /\
  (forall a : Z, S1ST_IF_SND_MAX_INT a INT_MAX = Value a) /\
  (forall a b : Z, ~ (a = INT_MAX /\ b = INT_MAX) ->
     FST_MINUS_ONE_INT a b = int_sub a 1) /\
  (forall a b : Z, in_int a -> INT_MIN < a -> ~ (a = INT_MAX /\ b = INT_MAX) ->
     FST_MINUS_ONE_INT a b = Value (a - 1)).
Proof.
  split; [exact FIRST_NON_MAX_INT_propagates |].
  split; [exact MIN_NON_MAX_INT_propagates |].
  split; [intros a b _ _ _; reflexivity |].
  split.
  { intros f Hin. unfold sentinel_operators in Hin. simpl in Hin.
    decompose [or] Hin; subst; try contradiction; reflexivity. }
  split; [intros b; reflexivity |].
  split.
  { intros a Ha H0. unfold MIN_NON_ZERO_INT, min.
    destruct (Z.eqb_spec a 0); [contradiction |].
    unfold in_int in Ha. now rewrite Z.min_l by lia. }
  split.
  { intros a. unfold S1ST_IF_SND_MAX_INT. now rewrite Z.eqb_refl. }
  split; [exact FST_MINUS_ONE_INT_otherwise |].
  exact FST_MINUS_ONE_INT_decrements.
Qed.

Lemma sentinel_propagation_by_operator_witness :
  FIRST_NON_MAX_INT 5 INT_MAX = Value INT_MAX /\
  FST_MINUS_ONE_INT INT_MAX 5 = int_sub INT_MAX 1.
Proof.
  split.
  - apply (proj1 sentinel_propagation_by_operator 5 INT_MAX).
    + unfold in_int, INT_MIN, INT_MAX. lia.
    + unfold in_int, INT_MIN, INT_MAX. lia.
    + right. reflexivity.
  - apply (proj1 (proj2 (proj2 (proj2 (proj2 (proj2 (proj2 (proj2
             sentinel_propagation_by_operator))))))) INT_MAX 5).
    intros [_ H]. discriminate H.
Defined.

(** C3, as stated, fails: (INT_MIN, 0) is not a pair of sentinels, yet
    [FST_MINUS_ONE_INT] does not return [INT_MIN - 1] there: the subtraction
    leaves the 32-bit signed type, a signed overflow. *)
Lemma decrement_overflows_at_INT_MIN :
  FST_MINUS_ONE_INT INT_MIN 0 = Undefined SignedOverflow /\
  ~ (forall a b : Z, in_int a -> in_int b -> ~ (a = INT_MAX /\ b = INT_MAX) ->
       FST_MINUS_ONE_INT a b = Value (a - 1)).
Proof.
  split; [reflexivity |].
  intros H.
  assert (Hval : FST_MINUS_ONE_INT INT_MIN 0 = Value (INT_MIN - 1)).
  { apply H.
    - unfold in_int, INT_MIN, INT_MAX. lia.
    - unfold in_int, INT_MIN, INT_MAX. lia.
    - intros [Ha _]. discriminate Ha. }
  discriminate Hval.
Qed.

(** C3, amended: with SENTINEL = [INT_MAX], [MIN_NON_MAX_INT] returns the
    sentinel whenever its first operand is the sentinel, [FIRST_NON_MAX_INT]
    whenever its second operand is, [FST_MINUS_ONE_INT] returns the sentinel
    on two sentinels and the integer [a - 1] on every other pair of 32-bit
    operands whose first operand is above [INT_MIN]; with first operand
    [INT_MIN] the subtraction is a signed overflow. *)
Theorem sentinel_operator_identities :
  (forall x : Z, MIN_NON_MAX_INT INT_MAX x = Value INT_MAX) /\
  (forall x : Z, FIRST_NON_MAX_INT x INT_MAX = Value INT_MAX) /\
  FST_MINUS_ONE_INT INT_MAX INT_MAX = Value INT_MAX /\
  (forall a b : Z, in_int a -> INT_MIN < a -> ~ (a = INT_MAX /\ b = INT_MAX) ->
     FST_MINUS_ONE_INT a b = Value (a - 1)) /\
  (forall b : Z, FST_MINUS_ONE_INT INT_MIN b = Undefined SignedOverflow).
Proof.
  split; [intros x; reflexivity |].
  split.
  { intros x. unfold FIRST_NON_MAX_INT. rewrite Z.eqb_refl.
    now rewrite orb_true_r. }
  split; [exact FST_MINUS_ONE_INT_both |].
  split; [exact FST_MINUS_ONE_INT_decrements |].
  exact FST_MINUS_ONE_INT_at_INT_MIN.
Qed.

Lemma sentinel_operator_identities_witness :
  FST_MINUS_ONE_INT 7 INT_MAX = Value 6.
Proof.
  apply (proj1 (proj2 (proj2 (proj2 sentinel_operator_identities))) 7 INT_MAX).
  - unfold in_int, INT_MIN, INT_MAX. lia.
  - unfold INT_MIN. lia.
  - intros [H _]. discriminate H.
Defined.

(** ** The packed words *)

Lemma SELECT_MIN_WEIGHT_UINT_repacks (a b : Z) :
  SELECT_MIN_WEIGHT_UINT a b =
  if weight_of a <=? weight_of b then Value (pack (weight_of a) (value_of a))
  else Value (pack (weight_of b) (value_of b)).
Proof. reflexivity. Qed.

(** C4: on 32-bit words, [SELECT_MIN_WEIGHT_UINT] returns the operand with the
    smaller weight field (the top 11 bits), and on equal weights the first
    operand, the very same word. *)
Theorem select_min_weight_picks_operand (a b : Z) :
  in_uint a -> in_uint b ->
  SELECT_MIN_WEIGHT_UINT a b = Value (if weight_of a <=? weight_of b then a else b) /\
  (weight_of a < weight_of b -> SELECT_MIN_WEIGHT_UINT a b = Value a) /\
  (weight_of b < weight_of a -> SELECT_MIN_WEIGHT_UINT a b = Value b) /\
  (weight_of a = weight_of b -> SELECT_MIN_WEIGHT_UINT a b = Value a).
Proof.
  intros Ha Hb.
  assert (Hmain : SELECT_MIN_WEIGHT_UINT a b
                  = Value (if weight_of a <=? weight_of b then a else b)).
  { rewrite SELECT_MIN_WEIGHT_UINT_repacks.
    destruct (weight_of a <=? weight_of b); now rewrite pack_unpack. }
  split; [exact Hmain |].
  rewrite Hmain.
  repeat split; intros H.
  - destruct (Z.leb_spec (weight_of a) (weight_of b)); [reflexivity | lia].
  - destruct (Z.leb_spec (weight_of a) (weight_of b)); [lia | reflexivity].
  - destruct (Z.leb_spec (weight_of a) (weight_of b)); [reflexivity | lia].
Qed.

Lemma select_min_weight_picks_operand_witness :
  SELECT_MIN_WEIGHT_UINT 4194311 2097161 = Value 2097161.
Proof.
  apply (proj1 (select_min_weight_picks_operand 4194311 2097161
                  ltac:(unfold in_uint, UINT_MAX; lia)
                  ltac:(unfold in_uint, UINT_MAX; lia))).
Defined.

(** C5: for a weight in [0, 2047] and a value in [0, 2^21 - 1], the word
    [(weight << 21) | value] unpacks, with [word >> 21] and
    [word & 0x1FFFFF], to the same weight and value; the sum the operators
    return, [(weight << 21) + value], is that same word. *)
Theorem pack_unpack_round_trip (weight value : Z) :
  0 <= weight <= 2047 -> 0 <= value <= 2 ^ 21 - 1 ->
  unpack (pack_spec weight value) = (weight, value) /\
  pack weight value = pack_spec weight value /\
  unpack (pack weight value) = (weight, value).
Proof.
  intros Hw Hv. change (2 ^ 21 - 1) with 2097151 in Hv.
  rewrite pack_value, pack_spec_value by assumption.
  repeat split; now apply unpack_sum.
Qed.

(** [CONSTRUCT_PAIR_UINT] takes the weight of its second operand and the
    value of its first. *)
Lemma CONSTRUCT_PAIR_UINT_fields (a b : Z) :
  in_uint a -> in_uint b ->
  exists word, CONSTRUCT_PAIR_UINT a b = Value word /\
    weight_of word = weight_of b /\ value_of word = value_of a.
Proof.
  intros Ha Hb. exists (pack (weight_of b) (value_of a)).
  split; [reflexivity |].
  pose proof (weight_of_range b Hb) as Hw.
  pose proof (value_of_range a) as Hv.
  rewrite pack_value by assumption.
  pose proof (unpack_sum _ _ Hw Hv) as Hu. unfold unpack in Hu.
  exact (conj (f_equal fst Hu) (f_equal snd Hu)).
Qed.

Lemma pack_unpack_round_trip_witness :
  unpack (pack_spec 2047 2097151) = (2047, 2097151).
Proof.
  apply (proj1 (pack_unpack_round_trip 2047 2097151 ltac:(lia) ltac:(lia))).
Defined.

(** ** Division *)

Lemma int_div_by_zero (a b : Z) : int_div a b = Undefined DivisionByZero <-> b = 0.
Proof.
  unfold int_div. destruct (Z.eqb_spec b 0) as [Hb | Hb].
  - tauto.
  - split; [intros H; now apply to_int_never_divides in H | contradiction].
Qed.

Lemma uint_div_by_zero (a b : Z) : uint_div a b = Undefined DivisionByZero <-> b = 0.
Proof.
  unfold uint_div. destruct (Z.eqb_spec b 0) as [Hb | Hb].
  - tauto.
  - split; [discriminate | contradiction].
Qed.

Lemma Z_quot_in_int (a b : Z) :
  in_int a -> b <> 0 -> ~ (a = INT_MIN /\ b = -1) -> in_int (Z.quot a b).
Proof.
  unfold in_int, INT_MIN, INT_MAX. intros Ha Hb Hnot.
  pose proof (Z.quot_rem a b Hb) as Hqr.
  pose proof (Z.rem_bound_abs a b Hb) as Hrem.
  assert (Habs : Z.abs (Z.quot a b) <= Z.abs a).
  { destruct (Z.eq_dec (Z.quot a b) 0) as [-> | Hq]; [lia |].
    rewrite <- (Z.quot_abs a b Hb) in *.
    apply Z.quot_le_upper_bound; nia. }
  destruct (Z.eq_dec a (-2147483648)) as [-> | Hne]; [| lia].
  assert (Hb1 : b <> -1) by (intros ->; apply Hnot; now split).
  destruct (Z.eq_dec b 1) as [-> | Hb2]; [rewrite Z.quot_1_r; lia |].
  assert (Hlt : Z.abs (Z.quot (-2147483648) b) < 2147483648).
  { rewrite <- (Z.quot_abs _ b Hb). apply Z.quot_lt_upper_bound; lia. }
  lia.
Qed.

(** C10: the bodies of [DIV_INT], [DIV_UINT], [MINV_INT] and [MINV_UINT] run
    into the division by zero exactly when the divisor is 0, and give the
    quotient otherwise; these bodies are what [register_ops] installs, and a
    factory stores the function it is given as it is. *)
Theorem division_is_unguarded :
  (forall a b : Z, DIV_INT a b = Undefined DivisionByZero <-> b = 0) /\
  (forall a b : Z, DIV_UINT a b = Undefined DivisionByZero <-> b = 0) /\
  (forall a : Z, MINV_INT a = Undefined DivisionByZero <-> a = 0) /\
  (forall a : Z, MINV_UINT a = Undefined DivisionByZero <-> a = 0) /\
  (forall a b : Z, in_int a -> b <> 0 -> ~ (a = INT_MIN /\ b = -1) ->
     DIV_INT a b = Value (Z.quot a b)) /\
  (forall a b : Z, b <> 0 -> DIV_UINT a b = Value (a / b)) /\
  (forall a : Z, a <> 0 -> MINV_INT a = Value (Z.quot 1 a)) /\
  (forall a : Z, a <> 0 -> MINV_UINT a = Value (1 / a)) /\
  In DIV_INT (binary_catalog INT) /\ In DIV_UINT (binary_catalog UINT) /\
  In MINV_INT (unary_catalog INT) /\ In MINV_UINT (unary_catalog UINT) /\
  (forall get_code d name code f,
     option_map OpUnary.function (OpUnary.make get_code d name code f)
     = Some (Some f)) /\
  (forall get_code d name code f,
     option_map OpBinary.function (OpBinary.make get_code d name code f)
     = Some (Some f)).
Proof.
  split; [exact int_div_by_zero |].
  split; [exact uint_div_by_zero |].
  split; [intros a; apply int_div_by_zero |].
  split; [intros a; apply uint_div_by_zero |].
  split.
  { intros a b Ha Hb Hnot. unfold DIV_INT, int_div.
    destruct (Z.eqb_spec b 0) as [H0 | _]; [contradiction |].
    apply to_int_in_range. now apply Z_quot_in_int. }
  split.
  { intros a b Hb. unfold DIV_UINT, uint_div.
    destruct (Z.eqb_spec b 0); [contradiction | reflexivity]. }
  split.
  { intros a Ha. unfold MINV_INT, int_div.
    destruct (Z.eqb_spec a 0) as [H0 | _]; [contradiction |].
    apply to_int_in_range. apply Z_quot_in_int.
    - unfold in_int, INT_MIN, INT_MAX. lia.
    - assumption.
    - intros [H _]. discriminate H. }
  split.
  { intros a Ha. unfold MINV_UINT, uint_div.
    destruct (Z.eqb_spec a 0); [contradiction | reflexivity]. }
  split; [cbv [binary_catalog register_ops flat_map binary_body keep app]; simpl;
          repeat (first [left; reflexivity | right]) |].
  split; [cbv [binary_catalog register_ops flat_map binary_body keep app]; simpl;
          repeat (first [left; reflexivity | right]) |].
  split; [cbv [unary_catalog register_ops flat_map unary_body keep app]; simpl;
          repeat (first [left; reflexivity | right]) |].
  split; [cbv [unary_catalog register_ops flat_map unary_body keep app]; simpl;
          repeat (first [left; reflexivity | right]) |].
  split; intros get_code d name code f; destruct d; reflexivity.
Qed.

Lemma division_is_unguarded_witness :
  DIV_INT 7 2 = Value 3 /\ DIV_INT 7 0 = Undefined DivisionByZero.
Proof.
  split.
  - apply (proj1 (proj2 (proj2 (proj2 (proj2 division_is_unguarded)))) 7 2).
    + unfold in_int, INT_MIN, INT_MAX. lia.
    + lia.
    + intros [H _]. discriminate H.
  - apply (proj2 (proj1 division_is_unguarded 7 0)). reflexivity.
Defined.

(** ** The select catalogue *)

Lemma select_catalog_INT :
  select_catalog INT =
  [EQZERO_INT; NQZERO_INT; GTZERO_INT; GEZERO_INT; LTZERO_INT; LEZERO_INT;
   ALWAYS_INT; NEVER_INT; EQUALS_MAX_INT; NEQUALS_MAX_INT].
Proof. reflexivity. Qed.

Lemma select_catalog_UINT :
  select_catalog UINT =
  [EQZERO_UINT; NQZERO_UINT; GTZERO_UINT; GEZERO_UINT; LTZERO_UINT; LEZERO_UINT;
   ALWAYS_UINT; NEVER_UINT; EQUALS_MAX_UINT; NEQUALS_MAX_UINT].
Proof. reflexivity. Qed.

Lemma select_catalog_FLOAT :
  select_catalog FLOAT =
  [EQZERO_FLOAT; NQZERO_FLOAT; GTZERO_FLOAT; GEZERO_FLOAT; LTZERO_FLOAT;
   LEZERO_FLOAT; ALWAYS_FLOAT; NEVER_FLOAT; EQUALS_MINF_FLOAT].
Proof. reflexivity. Qed.

Lemma EQUALS_MINF_FLOAT_exact (a : spec_float) :
  EQUALS_MINF_FLOAT a = true <-> a = NEG_INFINITY.
Proof.
  unfold EQUALS_MINF_FLOAT, NEG_INFINITY. split.
  - destruct a as [s | s | | s m e]; try destruct s; cbn; congruence.
  - intros ->. reflexivity.
Qed.

Lemma EQUALS_MAX_INT_exact (a : Z) : EQUALS_MAX_INT a = true <-> a = INT_MAX.
Proof. apply Z.eqb_eq. Qed.

Lemma EQUALS_MAX_UINT_exact (a : Z) : EQUALS_MAX_UINT a = true <-> a = UINT_MAX.
Proof. apply Z.eqb_eq. Qed.

Lemma NEQUALS_MAX_INT_exact (a : Z) : NEQUALS_MAX_INT a = true <-> a <> INT_MAX.
Proof.
  unfold NEQUALS_MAX_INT. rewrite negb_true_iff. apply Z.eqb_neq.
Qed.

Lemma NEQUALS_MAX_UINT_exact (a : Z) : NEQUALS_MAX_UINT a = true <-> a <> UINT_MAX.
Proof.
  unfold NEQUALS_MAX_UINT. rewrite negb_true_iff. apply Z.eqb_neq.
Qed.

(** A float predicate that holds exactly off negative infinity is false
    there and true at 0, 1 and -1: each of the nine float predicates of the
    catalogue misses one of these. *)
Ltac refute_at q H :=
  first
    [ let X := fresh in
      assert (X : q float_zero = true)
        by (apply (proj2 (H float_zero)); discriminate);
      discriminate X
    | let X := fresh in
      assert (X : q float_one = true)
        by (apply (proj2 (H float_one)); discriminate);
      discriminate X
    | let X := fresh in
      assert (X : q float_minus_one = true)
        by (apply (proj2 (H float_minus_one)); discriminate);
      discriminate X
    | exact (proj1 (H NEG_INFINITY) eq_refl eq_refl) ].

Lemma no_negated_sentinel_test_for_floats :
  ~ has_negated_sentinel_test FloatingPoint.
Proof.
  intros [q [Hin Hq]]. cbn [type_of] in Hin.
  rewrite select_catalog_FLOAT in Hin.
  unfold true_exactly_on, is_sentinel in Hq.
  simpl In in Hin.
  decompose [or] Hin; clear Hin; try contradiction; subst q.
  - refute_at EQZERO_FLOAT Hq.
  - refute_at NQZERO_FLOAT Hq.
  - refute_at GTZERO_FLOAT Hq.
  - refute_at GEZERO_FLOAT Hq.
  - refute_at LTZERO_FLOAT Hq.
  - refute_at LEZERO_FLOAT Hq.
  - refute_at ALWAYS_FLOAT Hq.
  - refute_at NEVER_FLOAT Hq.
  - refute_at EQUALS_MINF_FLOAT Hq.
Qed.

Lemma sentinel_test_in_every_family (d : Domain) : has_sentinel_test d.
Proof.
  destruct d; unfold has_sentinel_test; cbn [type_of].
  - exists EQUALS_MAX_INT. split.
    + rewrite select_catalog_INT. simpl. tauto.
    + exact EQUALS_MAX_INT_exact.
  - exists EQUALS_MAX_UINT. split.
    + rewrite select_catalog_UINT. simpl. tauto.
    + exact EQUALS_MAX_UINT_exact.
  - exists EQUALS_MINF_FLOAT. split.
    + rewrite select_catalog_FLOAT. simpl. tauto.
    + exact EQUALS_MINF_FLOAT_exact.
Qed.

(** C8, as stated, fails: no select predicate of the float family is true
    exactly off negative infinity, so not every family has the sentinel test
    together with its negation. *)
Lemma float_family_lacks_negated_test :
  ~ (forall d : Domain, has_sentinel_test d /\ has_negated_sentinel_test d).
Proof.
  intros H. destruct (H FloatingPoint) as [_ Hneg].
  now apply no_negated_sentinel_test_for_floats.
Qed.

(** C8, amended: every family has a select predicate true exactly on its
    sentinel ([EQUALS_MAX_INT], [EQUALS_MAX_UINT], [EQUALS_MINF_FLOAT]); the
    signed and unsigned integer families also have its pointwise negation
    ([NEQUALS_MAX_INT], [NEQUALS_MAX_UINT]), true exactly off the sentinel;
    the float family has no such negated predicate. *)
Theorem sentinel_tests_of_the_catalog :
  (forall d : Domain, has_sentinel_test d) /\
  has_negated_sentinel_test SignedInteger /\
  has_negated_sentinel_test UnsignedInteger /\
  pointwise_negation NEQUALS_MAX_INT EQUALS_MAX_INT /\
  pointwise_negation NEQUALS_MAX_UINT EQUALS_MAX_UINT /\
  ~ has_negated_sentinel_test FloatingPoint.
Proof.
  split; [exact sentinel_test_in_every_family |].
  split.
  { exists NEQUALS_MAX_INT. split.
    - cbn [type_of]. rewrite select_catalog_INT. simpl. tauto.
    - exact NEQUALS_MAX_INT_exact. }
  split.
  { exists NEQUALS_MAX_UINT. split.
    - cbn [type_of]. rewrite select_catalog_UINT. simpl. tauto.
    - exact NEQUALS_MAX_UINT_exact. }
  split; [intros a; reflexivity |].
  split; [intros a; reflexivity |].
  exact no_negated_sentinel_test_for_floats.
Qed.

(** ** Keys *)

Local Open Scope string_scope.

Section StringFacts.

Lemma length_append (s t : string) :
  String.length (s ++ t) = (String.length s + String.length t)%nat.
Proof. induction s as [| c s IH]; simpl; [reflexivity | now rewrite IH]. Qed.

(** Two concatenations with tails of one length agree part by part. *)
Lemma append_inj (s1 s2 t1 t2 : string) :
  String.length t1 = String.length t2 ->
  s1 ++ t1 = s2 ++ t2 -> s1 = s2 /\ t1 = t2.
Proof.
  revert s2. induction s1 as [| c s1 IH]; intros [| c' s2] Hlen Heq; simpl in Heq.
  - now split.
  - exfalso. apply (f_equal String.length) in Heq. simpl in Heq.
    rewrite length_append in Heq. lia.
  - exfalso. apply (f_equal String.length) in Heq. simpl in Heq.
    rewrite length_append in Heq. lia.
  - injection Heq as -> Heq. destruct (IH s2 Hlen Heq) as [-> ->]. now split.
Qed.

Lemma append_inv_tail (s1 s2 t : string) : s1 ++ t = s2 ++ t -> s1 = s2.
Proof. intros H. now apply (append_inj s1 s2 t t). Qed.

End StringFacts.

Section KeyFacts.
Variable get_code : Type_ -> string.

(** What the nine factories put into [key]. *)
Lemma key_of_unfold (i : Invocation) :
  key_of get_code i
  = Some (name_of i ++ "_" ++ signature_codes get_code (shape_of i) (domain_of i)).
Proof. destruct i as [d ? ? ? | d ? ? ? | d ? ? ?]; destruct d; reflexivity. Qed.

Lemma same_name_and_family (i1 i2 : Invocation) :
  shape_of i1 = shape_of i2 ->
  name_of i1 = name_of i2 -> domain_of i1 = domain_of i2 ->
  key_of get_code i1 = key_of get_code i2.
Proof.
  intros Hs Hn Hd. rewrite !key_of_unfold. now rewrite Hs, Hn, Hd.
Qed.

(** A different name alone changes the key, whatever the codes are. *)
Lemma other_name_other_key (i1 i2 : Invocation) :
  shape_of i1 = shape_of i2 -> domain_of i1 = domain_of i2 ->
  name_of i1 <> name_of i2 ->
  key_of get_code i1 <> key_of get_code i2.
Proof.
  intros Hs Hd Hn. rewrite !key_of_unfold, Hs, Hd. intros Heq.
  injection Heq as Heq. apply Hn. exact (append_inv_tail _ _ _ Heq).
Qed.

Hypothesis Hcodes : canonical_codes get_code.

Lemma signature_codes_length (s : Shape) (d1 d2 : Domain) :
  String.length (signature_codes get_code s d1)
  = String.length (signature_codes get_code s d2).
Proof.
  destruct Hcodes as [_ Hlen]. specialize (Hlen d1 d2).
  destruct s; simpl; rewrite ?length_append; lia.
Qed.

Lemma signature_codes_inj (s : Shape) (d1 d2 : Domain) :
  signature_codes get_code s d1 = signature_codes get_code s d2 -> d1 = d2.
Proof.
  destruct Hcodes as [Hinj Hlen]. specialize (Hlen d1 d2). intros Heq.
  apply Hinj. destruct s; simpl in Heq.
  - now apply (append_inj _ _ _ _ Hlen Heq).
  - apply (append_inj _ _ _ _) in Heq; [tauto |].
    rewrite !length_append. lia.
  - exact Heq.
Qed.

Lemma equal_keys_same_name_and_family (i1 i2 : Invocation) :
  shape_of i1 = shape_of i2 ->
  key_of get_code i1 = key_of get_code i2 ->
  name_of i1 = name_of i2 /\ domain_of i1 = domain_of i2.
Proof.
  intros Hs Heq. rewrite !key_of_unfold, Hs in Heq. injection Heq as Heq.
  apply append_inj in Heq.
  - destruct Heq as [Hn Hsig]. split; [exact Hn |].
    injection Hsig as Hsig. now apply signature_codes_inj in Hsig.
  - simpl. f_equal. apply signature_codes_length.
Qed.

End KeyFacts.

(** C1, as stated, fails: with one-letter codes, [OpSelect::make_int] called
    with the name EQZERO yields the key EQZERO_I; the name followed by the
    codes of the argument and of the [bool] result would be EQZEROIB, and
    the key has no code of the result even after the underscore. *)
Lemma select_key_has_no_result_code :
  key_of letter_code (InvokeSelect SignedInteger "EQZERO" "return a == 0;" EQZERO_INT)
    = Some "EQZERO_I" /\
  key_spec letter_code (InvokeSelect SignedInteger "EQZERO" "return a == 0;" EQZERO_INT)
    = "EQZEROIB" /\
  ~ (forall get_code i, key_of get_code i = Some (key_spec get_code i)).
Proof.
  split; [reflexivity |]. split; [reflexivity |].
  intros H.
  specialize (H letter_code
                (InvokeSelect SignedInteger "EQZERO" "return a == 0;" EQZERO_INT)).
  discriminate H.
Qed.

(** C1, amended: the key a factory computes is the name, an underscore, and
    then: for a unary operation the code of the argument type and the code of
    the result type; for a binary operation the codes of both argument types
    and the code of the result type; for a select operation the code of the
    argument type only. *)
Theorem factory_key_layout (get_code : Type_ -> string) (d : Domain)
    (name code : string) :
  (forall f, option_map OpUnary.key (OpUnary.make get_code d name code f)
             = Some (name ++ "_" ++ get_code (type_of d) ++ get_code (type_of d))) /\
  (forall f, option_map OpBinary.key (OpBinary.make get_code d name code f)
             = Some (name ++ "_" ++ get_code (type_of d) ++ get_code (type_of d)
                       ++ get_code (type_of d))) /\
  (forall f, option_map OpSelect.key (OpSelect.make get_code d name code f)
             = Some (name ++ "_" ++ get_code (type_of d))) /\
  (forall i, key_of get_code i
             = Some (name_of i ++ "_"
                       ++ signature_codes get_code (shape_of i) (domain_of i))).
Proof.
  repeat split; try (intros f; destruct d; reflexivity).
  apply key_of_unfold.
Qed.

(** C6: given type codes that differ between the three families and have one
    length, two invocations of factories of one shape get equal keys exactly
    when they agree on the name and on the family; the source text and the
    host function play no part. *)
Theorem key_determinism (get_code : Type_ -> string) (i1 i2 : Invocation) :
  canonical_codes get_code ->
  shape_of i1 = shape_of i2 ->
  (key_of get_code i1 = key_of get_code i2
   <-> name_of i1 = name_of i2 /\ domain_of i1 = domain_of i2) /\
  key_of get_code i1 <> None.
Proof.
  intros Hcodes Hs. split; [split |].
  - now apply equal_keys_same_name_and_family.
  - intros [Hn Hd]. now apply same_name_and_family.
  - rewrite key_of_unfold. discriminate.
Qed.

Lemma key_determinism_witness :
  key_of letter_code (InvokeUnary SignedInteger "ABS" "return abs(a);" ABS_INT)
  <> key_of letter_code (InvokeUnary UnsignedInteger "ABS" "return a;" ABS_UINT).
Proof.
  intros Heq.
  assert (Hcodes : canonical_codes letter_code).
  { split; intros d1 d2; destruct d1, d2; simpl;
      first [reflexivity | discriminate | intros _; reflexivity]. }
  destruct (proj1 (proj1 (key_determinism letter_code
              (InvokeUnary SignedInteger "ABS" "return abs(a);" ABS_INT)
              (InvokeUnary UnsignedInteger "ABS" "return a;" ABS_UINT)
              Hcodes eq_refl)) Heq) as [_ Hd].
  discriminate Hd.
Defined.

(** C7, as stated, fails: [OpUnary::make_int] called with the empty name
    hands back an operation object. *)
Lemma empty_name_is_accepted :
  ~ (forall get_code i, name_of i = "" -> produces_object get_code i = false).
Proof.
  intros H.
  specialize (H letter_code (InvokeUnary SignedInteger "" "return a;" IDENTITY_INT)
                eq_refl).
  discriminate H.
Qed.

(** C7, amended: a factory called with the empty name does not fail and
    reports no status; it returns an operation object whose name is empty,
    whose key is the underscore followed by the type codes, and which holds
    the source and the function it was given. *)
Theorem empty_name_builds_an_operation (get_code : Type_ -> string) (d : Domain)
    (code : string) :
  (forall f, exists op,
      OpUnary.make get_code d "" code f = Some op /\
      OpUnary.name op = "" /\
      OpUnary.key op = "_" ++ get_code (type_of d) ++ get_code (type_of d) /\
      OpUnary.source op = code /\ OpUnary.function op = Some f) /\
  (forall f, exists op,
      OpBinary.make get_code d "" code f = Some op /\
      OpBinary.name op = "" /\
      OpBinary.key op = "_" ++ get_code (type_of d) ++ get_code (type_of d)
                          ++ get_code (type_of d) /\
      OpBinary.source op = code /\ OpBinary.function op = Some f) /\
  (forall f, exists op,
      OpSelect.make get_code d "" code f = Some op /\
      OpSelect.name op = "" /\
      OpSelect.key op = "_" ++ get_code (type_of d) /\
      OpSelect.source op = code /\ OpSelect.function op = Some f) /\
  (forall i, produces_object get_code i = true).
Proof.
  repeat split;
    try (intros f; destruct d; eexists; repeat split; reflexivity).
  intros i. unfold produces_object. now rewrite key_of_unfold.
Qed.

(** ** Schedule *)

Section ScheduleFacts.
Import Schedule.
Variable arity : ScheduleTask -> nat.

Lemma step_tasks_malformed (s : Schedule) (tasks : list ScheduleTask) :
  submitted s = false -> existsb (malformed arity) tasks = true ->
  step_tasks arity s tasks = Some (InvalidArgument, s).
Proof. intros Hs Hbad. unfold step_tasks. now rewrite Hs, Hbad. Qed.

Lemma step_tasks_well_formed (s : Schedule) (tasks : list ScheduleTask) :
  submitted s = false -> existsb (malformed arity) tasks = false ->
  step_tasks arity s tasks
  = Some (Ok, {| steps := steps s ++ [tasks]; submitted := false |}).
Proof. intros Hs Hgood. unfold step_tasks. now rewrite Hs, Hgood. Qed.

End ScheduleFacts.

(** C9: on a schedule that has not been submitted, [step_tasks] given a
    collection with a malformed task (bound-argument count different from the
    arity of its operation) and [step_task] given such a task return a
    failure status, InvalidArgument, and the schedule they return is the one
    they were given: the step sequence is unchanged. *)
Theorem malformed_step_is_rejected (arity : Schedule.ScheduleTask -> nat)
    (s : Schedule.Schedule) :
  Schedule.submitted s = false ->
  (forall tasks, existsb (Schedule.malformed arity) tasks = true ->
     exists status s',
       Schedule.step_tasks arity s tasks = Some (status, s') /\
       status = Schedule.InvalidArgument /\ status <> Schedule.Ok /\
       s' = s /\ Schedule.steps s' = Schedule.steps s) /\
  (forall task, Schedule.malformed arity task = true ->
     exists status s',
       Schedule.step_task arity s task = Some (status, s') /\
       status = Schedule.InvalidArgument /\ status <> Schedule.Ok /\
       s' = s /\ Schedule.steps s' = Schedule.steps s).
Proof.
  intros Hs. split.
  - intros tasks Hbad. exists Schedule.InvalidArgument, s.
    rewrite step_tasks_malformed by assumption.
    repeat split; discriminate.
  - intros task Hbad. exists Schedule.InvalidArgument, s.
    unfold Schedule.step_task. rewrite step_tasks_malformed.
    + repeat split; discriminate.
    + assumption.
    + simpl. now rewrite Hbad.
Qed.

Lemma malformed_step_is_rejected_witness :
  Schedule.step_task (fun _ => 2%nat) Schedule.make_schedule
    {| Schedule.get_name := "v_eadd"; Schedule.get_key := "v_eadd";
       Schedule.get_key_full := "v_eadd_1"; Schedule.get_args := [1%positive];
       Schedule.get_desc := None |}
  = Some (Schedule.InvalidArgument, Schedule.make_schedule).
Proof.
  destruct (proj2 (malformed_step_is_rejected (fun _ => 2%nat)
                     Schedule.make_schedule eq_refl)
              {| Schedule.get_name := "v_eadd"; Schedule.get_key := "v_eadd";
                 Schedule.get_key_full := "v_eadd_1";
                 Schedule.get_args := [1%positive];
                 Schedule.get_desc := None |} eq_refl)
    as [status [s' [Hstep [-> [_ [-> _]]]]]].
  exact Hstep.
Defined.

(** * Further properties of the built-in operations *)

Local Open Scope Z_scope.

(** ** Results stay in the value type *)

Lemma unary_catalog_INT :
  unary_catalog INT =
  [IDENTITY_INT; AINV_INT; MINV_INT; LNOT_INT; UONE_INT; ABS_INT; BNOT_INT].
Proof. reflexivity. Qed.

Lemma unary_catalog_UINT :
  unary_catalog UINT =
  [IDENTITY_UINT; AINV_UINT; MINV_UINT; LNOT_UINT; UONE_UINT; ABS_UINT; BNOT_UINT].
Proof. reflexivity. Qed.

Lemma binary_catalog_INT :
  binary_catalog INT =
  [PLUS_INT; MINUS_INT; MULT_INT; DIV_INT; MINUS_POW2_INT; FIRST_INT; SECOND_INT;
   BONE_INT; MIN_INT; MAX_INT; LOR_INT; LAND_INT; BOR_INT; BAND_INT; BXOR_INT;
   FIRST_NON_MAX_INT; MIN_NON_MAX_INT; CONST_MAX_INT; SECOND_MAX_INT;
   MIN_NON_ZERO_INT; S1ST_IF_SND_MAX_INT; FST_MINUS_ONE_INT].
Proof. reflexivity. Qed.

Lemma binary_catalog_UINT :
  binary_catalog UINT =
  [PLUS_UINT; MINUS_UINT; MULT_UINT; DIV_UINT; MINUS_POW2_UINT; FIRST_UINT;
   SECOND_UINT; BONE_UINT; MIN_UINT; MAX_UINT; LOR_UINT; LAND_UINT; BOR_UINT;
   BAND_UINT; BXOR_UINT; SELECT_MIN_WEIGHT_UINT; CONSTRUCT_PAIR_UINT].
Proof. reflexivity. Qed.

Lemma to_int_value (z r : Z) : to_int z = Value r -> r = z /\ in_int z.
Proof.
  unfold to_int, in_int.
  destruct (Z.leb_spec INT_MIN z); destruct (Z.leb_spec z INT_MAX); simpl;
    intros Hv; try discriminate Hv.
  injection Hv as <-. lia.
Qed.

Lemma to_int_overflow (z : Z) (w : Fault) :
  to_int z = Undefined w -> w = SignedOverflow /\ ~ in_int z.
Proof.
  unfold to_int, in_int.
  destruct (Z.leb_spec INT_MIN z); destruct (Z.leb_spec z INT_MAX); simpl;
    intros Hv; try discriminate Hv; injection Hv as <-; split;
    try reflexivity; lia.
Qed.

Lemma b2z_in_int (c : bool) : in_int (Z.b2z c).
Proof. unfold in_int, INT_MIN, INT_MAX. destruct c; simpl; lia. Qed.

Lemma b2z_in_uint (c : bool) : in_uint (Z.b2z c).
Proof. unfold in_uint, UINT_MAX. destruct c; simpl; lia. Qed.

(** A 32-bit unsigned value is a non-negative number of at most 32 bits. *)
Lemma in_uint_log2 (z : Z) : 0 <= z -> (in_uint z <-> Z.log2 z < 32).
Proof.
  intros Hz. unfold in_uint, UINT_MAX.
  destruct (Z.eq_dec z 0) as [-> | Hne].
  - simpl. lia.
  - pose proof (Z.log2_lt_pow2 z 32 ltac:(lia)) as H.
    change (2 ^ 32) with 4294967296 in H. lia.
Qed.

Lemma lor_in_uint (a b : Z) : in_uint a -> in_uint b -> in_uint (Z.lor a b).
Proof.
  intros Ha Hb.
  assert (H0a : 0 <= a) by (unfold in_uint in Ha; lia).
  assert (H0b : 0 <= b) by (unfold in_uint in Hb; lia).
  apply in_uint_log2; [now apply Z.lor_nonneg |].
  rewrite Z.log2_lor by assumption.
  apply in_uint_log2 in Ha; [| assumption].
  apply in_uint_log2 in Hb; [| assumption]. lia.
Qed.

Lemma land_in_uint (a b : Z) : in_uint a -> in_uint b -> in_uint (Z.land a b).
Proof.
  intros Ha Hb.
  assert (H0a : 0 <= a) by (unfold in_uint in Ha; lia).
  assert (H0b : 0 <= b) by (unfold in_uint in Hb; lia).
  apply in_uint_log2; [apply Z.land_nonneg; now left |].
  pose proof (Z.log2_land a b H0a H0b) as H.
  apply in_uint_log2 in Ha; [| assumption]. lia.
Qed.

Lemma lxor_in_uint (a b : Z) : in_uint a -> in_uint b -> in_uint (Z.lxor a b).
Proof.
  intros Ha Hb.
  assert (H0a : 0 <= a) by (unfold in_uint in Ha; lia).
  assert (H0b : 0 <= b) by (unfold in_uint in Hb; lia).
  apply in_uint_log2; [apply Z.lxor_nonneg; lia |].
  pose proof (Z.log2_lxor a b H0a H0b) as H.
  apply in_uint_log2 in Ha; [| assumption].
  apply in_uint_log2 in Hb; [| assumption]. lia.
Qed.

(** A 32-bit signed value is a number whose bits from 31 up are all equal. *)
Lemma in_int_sign (z : Z) :
  in_int z <-> Z.shiftr z 31 = 0 \/ Z.shiftr z 31 = -1.
Proof.
  unfold in_int, INT_MIN, INT_MAX. rewrite Z.shiftr_div_pow2 by lia.
  change (2 ^ 31) with 2147483648.
  pose proof (Z.div_mod z 2147483648 ltac:(lia)).
  pose proof (Z.mod_pos_bound z 2147483648 ltac:(lia)). lia.
Qed.

Lemma lor_in_int (a b : Z) : in_int a -> in_int b -> in_int (Z.lor a b).
Proof.
  rewrite !in_int_sign, Z.shiftr_lor.
  intros [-> | ->] [-> | ->]; simpl; auto.
Qed.

Lemma land_in_int (a b : Z) : in_int a -> in_int b -> in_int (Z.land a b).
Proof.
  rewrite !in_int_sign, Z.shiftr_land.
  intros [-> | ->] [-> | ->]; simpl; auto.
Qed.

Lemma lxor_in_int (a b : Z) : in_int a -> in_int b -> in_int (Z.lxor a b).
Proof.
  rewrite !in_int_sign, Z.shiftr_lxor.
  intros [-> | ->] [-> | ->]; simpl; auto.
Qed.

Lemma lnot_in_int (a : Z) : in_int a -> in_int (Z.lnot a).
Proof. unfold in_int, INT_MIN, INT_MAX, Z.lnot. lia. Qed.

Lemma min_in_int (a b : Z) : in_int a -> in_int b -> in_int (min a b).
Proof. unfold in_int, min. lia. Qed.

Lemma max_in_int (a b : Z) : in_int a -> in_int b -> in_int (max a b).
Proof. unfold in_int, max. lia. Qed.

Lemma INT_MAX_in_int : in_int INT_MAX.
Proof. unfold in_int, INT_MIN, INT_MAX. lia. Qed.

Lemma one_in_int : in_int 1.
Proof. unfold in_int, INT_MIN, INT_MAX. lia. Qed.

Create HintDb ranges.

#[local] Hint Resolve b2z_in_int b2z_in_uint lor_in_int land_in_int lxor_in_int
  lnot_in_int min_in_int max_in_int INT_MAX_in_int one_in_int lor_in_uint
  land_in_uint lxor_in_uint to_uint_in_uint : ranges.

(** Reads a hypothesis [f a b = Value r] until [r] is known. *)
Ltac read_value H :=
  repeat match type of H with
         | (if ?c then _ else _) = _ => destruct c
         | bind (to_int ?z) _ = _ =>
             let E := fresh "E" in
             destruct (to_int z) eqn:E; simpl in H; [| discriminate H]
         | Undefined _ = Value _ => discriminate H
         | Value _ = Value _ => injection H as H; subst
         | to_int _ = Value _ =>
             apply to_int_value in H; destruct H as [? ?]; subst
         end.

Lemma int_unary_in_range (f : Z -> Outcome Z) (a r : Z) :
  In f (unary_catalog INT) -> in_int a -> f a = Value r -> in_int r.
Proof.
  rewrite unary_catalog_INT. simpl In. intros Hin Ha Hr.
  decompose [or] Hin; clear Hin; try contradiction; subst f;
    cbv [IDENTITY_INT AINV_INT MINV_INT LNOT_INT UONE_INT ABS_INT BNOT_INT
         int_neg int_div int_abs] in Hr;
    read_value Hr; auto with ranges.
Qed.

Lemma int_binary_in_range (f : Z -> Z -> Outcome Z) (a b r : Z) :
  In f (binary_catalog INT) -> in_int a -> in_int b -> f a b = Value r -> in_int r.
Proof.
  rewrite binary_catalog_INT. simpl In. intros Hin Ha Hb Hr.
  decompose [or] Hin; clear Hin; try contradiction; subst f;
    cbv [PLUS_INT MINUS_INT MULT_INT DIV_INT MINUS_POW2_INT FIRST_INT SECOND_INT
         BONE_INT MIN_INT MAX_INT LOR_INT LAND_INT BOR_INT BAND_INT BXOR_INT
         FIRST_NON_MAX_INT MIN_NON_MAX_INT CONST_MAX_INT SECOND_MAX_INT
         MIN_NON_ZERO_INT S1ST_IF_SND_MAX_INT FST_MINUS_ONE_INT
         int_add int_sub int_mul int_div] in Hr;
    read_value Hr; auto with ranges.
Qed.

Lemma div_in_uint (a b : Z) : in_uint a -> in_uint b -> b <> 0 -> in_uint (a / b).
Proof.
  unfold in_uint, UINT_MAX. intros Ha Hb Hne.
  pose proof (Z.div_mod a b Hne).
  pose proof (Z.mod_pos_bound a b ltac:(lia)).
  assert (0 <= a / b) by (apply Z.div_pos; lia).
  nia.
Qed.

Lemma min_in_uint (a b : Z) : in_uint a -> in_uint b -> in_uint (min a b).
Proof. unfold in_uint, min. lia. Qed.

Lemma max_in_uint (a b : Z) : in_uint a -> in_uint b -> in_uint (max a b).
Proof. unfold in_uint, max. lia. Qed.

Lemma one_in_uint : in_uint 1.
Proof. unfold in_uint, UINT_MAX. lia. Qed.

#[local] Hint Resolve div_in_uint min_in_uint max_in_uint one_in_uint : ranges.

Ltac value_in_uint :=
  left; eexists; split; [reflexivity | auto with ranges].

(** X2: on 32-bit unsigned operands every built-in T_UINT operation returns
    a 32-bit unsigned value, with one exception: [MINV_UINT] on 0 and
    [DIV_UINT] with divisor 0 divide by zero.  No T_UINT operation has
    another undefined case. *)
Theorem uint_operations_total_and_in_range :
  (forall f a, In f (unary_catalog UINT) -> in_uint a ->
     (exists r, f a = Value r /\ in_uint r) \/
     (f a = Undefined DivisionByZero /\ a = 0 /\ f = MINV_UINT)) /\
  (forall f a b, In f (binary_catalog UINT) -> in_uint a -> in_uint b ->
     (exists r, f a b = Value r /\ in_uint r) \/
     (f a b = Undefined DivisionByZero /\ b = 0 /\ f = DIV_UINT)).
Proof.
  split.
  - intros f a Hin Ha. rewrite unary_catalog_UINT in Hin. simpl In in Hin.
    decompose [or] Hin; clear Hin; try contradiction; subst f;
      try (cbv [IDENTITY_UINT AINV_UINT LNOT_UINT UONE_UINT ABS_UINT BNOT_UINT
                uint_neg uint_not]; value_in_uint).
    unfold MINV_UINT, uint_div. destruct (Z.eqb_spec a 0) as [-> | Hne].
    + right. repeat split.
    + value_in_uint.
  - intros f a b Hin Ha Hb. rewrite binary_catalog_UINT in Hin. simpl In in Hin.
    decompose [or] Hin; clear Hin; try contradiction; subst f;
      try (cbv [PLUS_UINT MINUS_UINT MULT_UINT MINUS_POW2_UINT FIRST_UINT
                SECOND_UINT BONE_UINT MIN_UINT MAX_UINT LOR_UINT LAND_UINT
                BOR_UINT BAND_UINT BXOR_UINT CONSTRUCT_PAIR_UINT
                uint_add uint_sub uint_mul]; value_in_uint).
    + unfold DIV_UINT, uint_div. destruct (Z.eqb_spec b 0) as [-> | Hne].
      * right. repeat split.
      * value_in_uint.
    + rewrite SELECT_MIN_WEIGHT_UINT_repacks.
      destruct (weight_of a <=? weight_of b); unfold pack, uint_add; value_in_uint.
Qed.

Lemma uint_operations_total_and_in_range_witness :
  exists r, MINUS_UINT 1 2 = Value r /\ in_uint r.
Proof.
  destruct (proj2 uint_operations_total_and_in_range MINUS_UINT 1 2) as [H | H].
  - rewrite binary_catalog_UINT. simpl. auto.
  - unfold in_uint, UINT_MAX. lia.
  - unfold in_uint, UINT_MAX. lia.
  - exact H.
  - destruct H as [H _]. discriminate H.
Defined.

(** ** Signed overflow: where it happens *)

Lemma to_int_overflow_iff (z : Z) :
  to_int z = Undefined SignedOverflow <-> ~ in_int z.
Proof.
  split.
  - intros H. now apply to_int_overflow in H.
  - intros H. destruct (to_int z) as [v | w] eqn:E.
    + apply to_int_value in E. tauto.
    + apply to_int_overflow in E. destruct E as [-> _]. reflexivity.
Qed.

(** X3: on 32-bit signed operands, [AINV_INT] and [ABS_INT] overflow exactly
    at [INT_MIN], [DIV_INT] overflows exactly at [INT_MIN / -1], and
    [FST_MINUS_ONE_INT] overflows exactly when its first operand is
    [INT_MIN]; away from [INT_MIN] negation and absolute value are the
    integer ones. *)
Theorem signed_overflow_edges (a b : Z) :
  in_int a -> in_int b ->
  (AINV_INT a = Undefined SignedOverflow <-> a = INT_MIN) /\
  (ABS_INT a = Undefined SignedOverflow <-> a = INT_MIN) /\
  (DIV_INT a b = Undefined SignedOverflow <-> a = INT_MIN /\ b = -1) /\
  (FST_MINUS_ONE_INT a b = Undefined SignedOverflow <-> a = INT_MIN) /\
  (a <> INT_MIN -> AINV_INT a = Value (- a) /\ ABS_INT a = Value (Z.abs a)).
Proof.
  intros Ha Hb.
  split; [| split; [| split; [| split]]].
  - unfold AINV_INT, int_neg. rewrite to_int_overflow_iff.
    unfold in_int, INT_MIN, INT_MAX in *. lia.
  - unfold ABS_INT, int_abs. rewrite to_int_overflow_iff.
    unfold in_int, INT_MIN, INT_MAX in *. lia.
  - unfold DIV_INT, int_div. destruct (Z.eqb_spec b 0) as [-> | Hne].
    + split; [discriminate | intros [_ H]; discriminate H].
    + rewrite to_int_overflow_iff. split.
      * intros Hout.
        destruct (Z.eq_dec a INT_MIN) as [Hmin | Hmin];
          destruct (Z.eq_dec b (-1)) as [Hm1 | Hm1]; try tauto;
          exfalso; apply Hout; apply Z_quot_in_int; tauto.
      * intros [-> ->] Hin. vm_compute in Hin. destruct Hin as [_ Hin].
        now apply Hin.
  - unfold FST_MINUS_ONE_INT.
    destruct (Z.eqb_spec a INT_MAX) as [-> | Hne];
      destruct (Z.eqb_spec b INT_MAX) as [-> | Hne']; simpl;
      try (split; [discriminate | intros H; discriminate H]);
      unfold int_sub; rewrite to_int_overflow_iff;
      unfold in_int, INT_MIN, INT_MAX in *; lia.
  - intros Hne. unfold AINV_INT, ABS_INT, int_neg, int_abs.
    rewrite !to_int_in_range; [tauto | |];
      unfold in_int, INT_MIN, INT_MAX in *; lia.
Qed.

Lemma signed_overflow_edges_witness :
  DIV_INT INT_MIN (-1) = Undefined SignedOverflow.
Proof.
  apply (proj2 (proj1 (proj2 (proj2 (signed_overflow_edges INT_MIN (-1)
           ltac:(unfold in_int, INT_MIN, INT_MAX; lia)
           ltac:(unfold in_int, INT_MIN, INT_MAX; lia)))))).
  split; reflexivity.
Defined.

(** ** The multiplicative inverse on integers *)

Lemma quot_one (a : Z) :
  a <> 0 -> Z.quot 1 a = if a =? 1 then 1 else if a =? -1 then -1 else 0.
Proof.
  intros Hne.
  destruct (Z.eqb_spec a 1) as [-> | H1]; [reflexivity |].
  destruct (Z.eqb_spec a (-1)) as [-> | Hm1]; [reflexivity |].
  destruct (Z.lt_ge_cases 0 a) as [Hpos | Hneg].
  - apply Z.quot_small. lia.
  - replace a with (- (- a)) by lia.
    rewrite Z.quot_opp_r by lia. rewrite Z.quot_small by lia. reflexivity.
Qed.

(** X4: the integer "multiplicative inverse" is [1 / a] in integer division:
    [MINV_INT] maps 1 to 1, -1 to -1 and every other non-zero value to 0;
    [MINV_UINT] maps 1 to 1 and every other non-zero value to 0. *)
Theorem integer_inverse_values (a : Z) :
  a <> 0 ->
  MINV_INT a = Value (if a =? 1 then 1 else if a =? -1 then -1 else 0) /\
  (0 < a -> MINV_UINT a = Value (if a =? 1 then 1 else 0)).
Proof.
  intros Hne. split.
  - unfold MINV_INT, int_div. destruct (Z.eqb_spec a 0); [contradiction |].
    rewrite quot_one by assumption.
    apply to_int_in_range. unfold in_int, INT_MIN, INT_MAX.
    destruct (a =? 1); [lia |]. destruct (a =? -1); lia.
  - intros Hpos. unfold MINV_UINT, uint_div.
    destruct (Z.eqb_spec a 0); [contradiction |].
    destruct (Z.eqb_spec a 1) as [-> | H1]; [reflexivity |].
    rewrite Z.div_small by lia. reflexivity.
Qed.

Lemma integer_inverse_values_witness : MINV_INT 5 = Value 0.
Proof. apply (proj1 (integer_inverse_values 5 ltac:(lia))). Defined.

(** ** The squared difference *)




(** ** Unsigned arithmetic modulo 2^32 *)

Lemma to_uint_idem (z : Z) : to_uint (to_uint z) = to_uint z.
Proof. unfold to_uint. apply Z.mod_mod. lia. Qed.

Lemma uint_not_value (a : Z) : in_uint a -> uint_not a = UINT_MAX - a.
Proof.
  unfold in_uint, uint_not, to_uint, UINT_MAX, Z.lnot. intros Ha.
  replace (Z.pred (- a)) with (4294967295 - a + -1 * 4294967296) by lia.
  rewrite Z.mod_add by lia. apply Z.mod_small. lia.
Qed.

(** X6: on 32-bit unsigned values [AINV_UINT] is the additive inverse modulo
    [2^32]: adding it back gives 0, negating twice gives the value back,
    [MINUS_UINT] is [PLUS_UINT] of the negation, and the negation is the
    complement plus one; [BNOT_UINT a] is [UINT_MAX - a] and complementing
    twice gives the value back. *)
Theorem unsigned_negation_and_complement (a b : Z) :
  in_uint a -> in_uint b ->
  (n <- AINV_UINT a ;; PLUS_UINT a n) = Value 0 /\
  (n <- AINV_UINT a ;; AINV_UINT n) = Value a /\
  MINUS_UINT a b = (n <- AINV_UINT b ;; PLUS_UINT a n) /\
  AINV_UINT a = (c <- BNOT_UINT a ;; PLUS_UINT c 1) /\
  BNOT_UINT a = Value (UINT_MAX - a) /\
  (c <- BNOT_UINT a ;; BNOT_UINT c) = Value a.
Proof.
  intros Ha Hb.
  unfold AINV_UINT, PLUS_UINT, MINUS_UINT, BNOT_UINT, uint_neg, uint_add, uint_sub.
  cbn [bind].
  rewrite (uint_not_value a Ha).
  rewrite (uint_not_value (UINT_MAX - a))
    by (unfold in_uint, UINT_MAX in *; lia).
  unfold in_uint, UINT_MAX, to_uint in *.
  repeat split; f_equal.
  - rewrite Z.add_mod_idemp_r by lia.
    replace (a + - a) with 0 by lia. reflexivity.
  - destruct (Z.eq_dec a 0) as [-> | Hne]; [reflexivity |].
    replace (- a) with (4294967296 - a + -1 * 4294967296) by lia.
    rewrite Z.mod_add by lia.
    rewrite (Z.mod_small (4294967296 - a)) by lia.
    replace (- (4294967296 - a)) with (a + -1 * 4294967296) by lia.
    rewrite Z.mod_add by lia. apply Z.mod_small. lia.
  - rewrite Z.add_mod_idemp_r by lia. f_equal; lia.
  - replace (4294967295 - a + 1) with (- a + 1 * 4294967296) by lia.
    now rewrite Z.mod_add by lia.
  - lia.
Qed.

Lemma unsigned_negation_and_complement_witness :
  (n <- AINV_UINT 7 ;; PLUS_UINT 7 n) = Value 0.
Proof.
  apply (proj1 (unsigned_negation_and_complement 7 0
                  ltac:(unfold in_uint, UINT_MAX; lia)
                  ltac:(unfold in_uint, UINT_MAX; lia))).
Defined.

(** X7: [PLUS_UINT] and [MULT_UINT] are commutative and associative, and
    [MULT_UINT] distributes over [PLUS_UINT], on all operands: wrapping
    modulo [2^32] keeps the ring laws. *)
Theorem unsigned_ring_laws (a b c : Z) :
  PLUS_UINT a b = PLUS_UINT b a /\
  MULT_UINT a b = MULT_UINT b a /\
  fold_left2 PLUS_UINT a b c = fold_right2 PLUS_UINT a b c /\
  fold_left2 MULT_UINT a b c = fold_right2 MULT_UINT a b c /\
  (s <- PLUS_UINT b c ;; MULT_UINT a s)
    = (l <- MULT_UINT a b ;; r <- MULT_UINT a c ;; PLUS_UINT l r).
Proof.
  unfold fold_left2, fold_right2, PLUS_UINT, MULT_UINT, uint_add, uint_mul, to_uint.
  simpl bind.
  repeat split; f_equal.
  - f_equal. lia.
  - f_equal. lia.
  - rewrite Z.add_mod_idemp_l, Z.add_mod_idemp_r by lia. f_equal. lia.
  - rewrite Z.mul_mod_idemp_l, Z.mul_mod_idemp_r by lia. f_equal. lia.
  - rewrite Z.mul_mod_idemp_r by lia. rewrite <- Z.add_mod by lia. f_equal. lia.
Qed.

(** X8: signed addition is not associative as to being defined: the left
    nesting of [INT_MAX + a + (-a)] overflows for every positive [a] while the
    right nesting returns [INT_MAX]; whenever both nestings of a sum return a
    value, it is the same value. *)
Theorem signed_addition_nesting :
  (forall a, 0 < a <= INT_MAX ->
     fold_left2 PLUS_INT INT_MAX a (- a) = Undefined SignedOverflow /\
     fold_right2 PLUS_INT INT_MAX a (- a) = Value INT_MAX) /\
  (forall a b c l r,
     fold_left2 PLUS_INT a b c = Value l ->
     fold_right2 PLUS_INT a b c = Value r -> l = r /\ l = a + b + c).
Proof.
  split.
  - intros a Ha. unfold fold_left2, fold_right2, PLUS_INT, int_add.
    replace (to_int (INT_MAX + a)) with (@Undefined Z SignedOverflow)
      by (symmetry; apply to_int_overflow_iff;
          unfold in_int, INT_MIN, INT_MAX in *; lia).
    replace (a + - a) with 0 by lia.
    split; reflexivity.
  - intros a b c l r Hl Hr.
    unfold fold_left2, fold_right2, PLUS_INT, int_add in *.
    destruct (to_int (a + b)) as [x | ] eqn:Ex; simpl in Hl; [| discriminate Hl].
    destruct (to_int (b + c)) as [y | ] eqn:Ey; simpl in Hr; [| discriminate Hr].
    apply to_int_value in Ex, Ey, Hl, Hr. lia.
Qed.

Lemma signed_addition_nesting_witness :
  fold_left2 PLUS_INT INT_MAX 1 (- 1) = Undefined SignedOverflow /\
  fold_right2 PLUS_INT INT_MAX 1 (- 1) = Value INT_MAX.
Proof.
  apply (proj1 signed_addition_nesting 1). unfold INT_MAX. lia.
Defined.

(** ** Logical and bitwise operations *)

(** X9: [LNOT], [LOR] and [LAND] return 0 or 1 whatever the operands;
    negating twice maps every non-zero value to 1 (not to itself); De
    Morgan's law holds between [LOR] and [LAND]. *)
Theorem logical_operations (a b : Z) :
  (exists c : bool, LNOT_INT a = Value (Z.b2z c)) /\
  (exists c : bool, LOR_INT a b = Value (Z.b2z c)) /\
  (exists c : bool, LAND_INT a b = Value (Z.b2z c)) /\
  (x <- LNOT_INT a ;; LNOT_INT x) = Value (if a =? 0 then 0 else 1) /\
  (x <- LOR_INT a b ;; LNOT_INT x)
    = (na <- LNOT_INT a ;; nb <- LNOT_INT b ;; LAND_INT na nb) /\
  (x <- LAND_INT a b ;; LNOT_INT x)
    = (na <- LNOT_INT a ;; nb <- LNOT_INT b ;; LOR_INT na nb) /\
  LNOT_UINT a = LNOT_INT a /\ LOR_UINT a b = LOR_INT a b /\
  LAND_UINT a b = LAND_INT a b.
Proof.
  unfold LNOT_INT, LOR_INT, LAND_INT, LNOT_UINT, LOR_UINT, LAND_UINT.
  simpl bind.
  split; [eexists; reflexivity |].
  split; [eexists; reflexivity |].
  split; [eexists; reflexivity |].
  repeat split; destruct (a =? 0); destruct (b =? 0); reflexivity.
Qed.

Lemma land_lnot_low (a : Z) : Z.land a (to_uint (Z.lnot a)) = 0.
Proof.
  unfold to_uint. change 4294967296 with (2 ^ 32).
  rewrite <- Z.land_ones by lia.
  rewrite Z.land_assoc, Z.land_lnot_diag. apply Z.land_0_l.
Qed.

Lemma lor_lnot_low (a : Z) : in_uint a -> Z.lor a (to_uint (Z.lnot a)) = UINT_MAX.
Proof.
  intros Ha.
  rewrite <- (to_uint_small a Ha) at 1.
  unfold to_uint. change 4294967296 with (2 ^ 32).
  rewrite <- !Z.land_ones by lia.
  rewrite <- Z.land_lor_distr_l, Z.lor_lnot_diag, Z.land_m1_l. reflexivity.
Qed.

(** X10: complement laws.  For every [a], [a & ~a] is 0, [a | ~a] is -1 and
    [a ^ a] is 0 on T_INT, and [BNOT_INT a] is [-a - 1]; on 32-bit unsigned
    values [a & ~a] is 0, [a | ~a] is [UINT_MAX] and [a ^ a] is 0. *)
Theorem complement_laws (a : Z) :
  (n <- BNOT_INT a ;; BAND_INT a n) = Value 0 /\
  (n <- BNOT_INT a ;; BOR_INT a n) = Value (-1) /\
  BXOR_INT a a = Value 0 /\
  BNOT_INT a = Value (- a - 1) /\
  (n <- BNOT_UINT a ;; BAND_UINT a n) = Value 0 /\
  BXOR_UINT a a = Value 0 /\
  (in_uint a -> (n <- BNOT_UINT a ;; BOR_UINT a n) = Value UINT_MAX).
Proof.
  unfold BNOT_INT, BAND_INT, BOR_INT, BXOR_INT, BNOT_UINT, BAND_UINT, BOR_UINT,
    BXOR_UINT, uint_not.
  simpl bind.
  repeat split; try intros Ha; f_equal.
  - apply Z.land_lnot_diag.
  - apply Z.lor_lnot_diag.
  - apply Z.lxor_nilpotent.
  - apply land_lnot_low.
  - apply Z.lxor_nilpotent.
  - now apply lor_lnot_low.
Qed.

Lemma complement_laws_witness :
  (n <- BNOT_UINT 5 ;; BOR_UINT 5 n) = Value UINT_MAX.
Proof.
  apply (proj2 (proj2 (proj2 (proj2 (proj2 (proj2 (complement_laws 5))))))).
  unfold in_uint, UINT_MAX. lia.
Defined.

(** ** The INT_MAX operators as reductions *)

Ltac split_eqb :=
  repeat match goal with
         | |- context [Z.eqb ?x ?y] => destruct (Z.eqb_spec x y); cbn [orb andb bind]
         end.

Ltac sentinel_cases :=
  cbv [fold_left2 fold_right2 FIRST_NON_MAX_INT MIN_NON_MAX_INT SECOND_MAX_INT
       MIN_NON_ZERO_INT S1ST_IF_SND_MAX_INT MIN_INT min];
  split_eqb; cbn [bind]; split_eqb; try reflexivity; try (f_equal; lia).

(** X11: [MIN_NON_MAX_INT] is commutative, associative and idempotent on
    all operands; it agrees with [MIN_INT] when neither operand is
    [INT_MAX], but [INT_MAX] absorbs in [MIN_NON_MAX_INT] where it is the
    neutral element of [MIN_INT]. *)
Theorem MIN_NON_MAX_INT_laws (a b c : Z) :
  MIN_NON_MAX_INT a b = MIN_NON_MAX_INT b a /\
  fold_left2 MIN_NON_MAX_INT a b c = fold_right2 MIN_NON_MAX_INT a b c /\
  MIN_NON_MAX_INT a a = Value a /\
  (a <> INT_MAX -> b <> INT_MAX -> MIN_NON_MAX_INT a b = MIN_INT a b) /\
  (in_int a -> MIN_INT a INT_MAX = Value a /\
               MIN_NON_MAX_INT a INT_MAX = Value INT_MAX).
Proof.
  split; [sentinel_cases |].
  split; [sentinel_cases |].
  split; [sentinel_cases |].
  split.
  - intros Ha Hb. sentinel_cases; contradiction.
  - intros Ha. unfold in_int in Ha. split; sentinel_cases; contradiction.
Qed.

Lemma MIN_NON_MAX_INT_laws_witness : MIN_NON_MAX_INT 3 8 = MIN_INT 3 8.
Proof.
  apply (proj1 (proj2 (proj2 (proj2 (MIN_NON_MAX_INT_laws 3 8 0)))));
    unfold INT_MAX; lia.
Defined.

(** X12: [SECOND_MAX_INT] picks the first operand that is not [INT_MAX]:
    [INT_MAX] is neutral on both sides, the operator is associative and
    idempotent, and the result is always one of the operands. *)
Theorem SECOND_MAX_INT_laws (a b c : Z) :
  SECOND_MAX_INT INT_MAX b = Value b /\
  SECOND_MAX_INT a INT_MAX = Value a /\
  fold_left2 SECOND_MAX_INT a b c = fold_right2 SECOND_MAX_INT a b c /\
  SECOND_MAX_INT a a = Value a /\
  (SECOND_MAX_INT a b = Value a \/ SECOND_MAX_INT a b = Value b).
Proof.
  split; [reflexivity |].
  split; [sentinel_cases; congruence |].
  split; [sentinel_cases; congruence |].
  split; [sentinel_cases; congruence |].
  sentinel_cases; auto.
Qed.

(** X13: [FIRST_NON_MAX_INT] is associative and idempotent, and it is
    commutative on a pair exactly when the operands are equal or one of them
    is [INT_MAX]. *)
Theorem FIRST_NON_MAX_INT_laws (a b c : Z) :
  fold_left2 FIRST_NON_MAX_INT a b c = fold_right2 FIRST_NON_MAX_INT a b c /\
  FIRST_NON_MAX_INT a a = Value a /\
  (FIRST_NON_MAX_INT a b = FIRST_NON_MAX_INT b a
   <-> a = b \/ a = INT_MAX \/ b = INT_MAX).
Proof.
  split; [sentinel_cases; congruence |].
  split; [sentinel_cases; congruence |].
  sentinel_cases; split; intros H; try tauto; try congruence.
  - injection H as H. tauto.
  - destruct H as [H | [H | H]]; congruence.
Qed.

(** X14: [MIN_NON_ZERO_INT] tests its first operand only: 0 is neutral on
    the left, but a positive first operand with second operand 0 gives 0; a
    non-zero first operand gives the plain minimum; the operator is not
    associative: for [0 < a < c] the two nestings of [a, 0, c] give [c] and
    [a]. *)
Theorem MIN_NON_ZERO_INT_laws (a b c : Z) :
  MIN_NON_ZERO_INT 0 b = Value b /\
  (a <> 0 -> MIN_NON_ZERO_INT a b = MIN_INT a b) /\
  (0 < a -> MIN_NON_ZERO_INT a 0 = Value 0 /\ MIN_NON_ZERO_INT 0 a = Value a) /\
  (0 < a < c ->
     fold_left2 MIN_NON_ZERO_INT a 0 c = Value c /\
     fold_right2 MIN_NON_ZERO_INT a 0 c = Value a).
Proof.
  split; [reflexivity |].
  split; [intros Ha; sentinel_cases; contradiction |].
  split; intros Ha; split; sentinel_cases; lia.
Qed.

Lemma MIN_NON_ZERO_INT_laws_witness :
  fold_left2 MIN_NON_ZERO_INT 1 0 2 = Value 2 /\
  fold_right2 MIN_NON_ZERO_INT 1 0 2 = Value 1.
Proof.
  apply (proj2 (proj2 (proj2 (MIN_NON_ZERO_INT_laws 1 0 2)))). lia.
Defined.

(** X15: on 32-bit signed operands with the first one above [INT_MIN], where
    [a - 1] does not overflow, [FST_MINUS_ONE_INT] returns a value, and that
    value is [INT_MAX] only when both operands are [INT_MAX];
    [S1ST_IF_SND_MAX_INT] returns its first operand exactly when one of the
    operands is [INT_MAX] (it returns [INT_MAX] in every other case). *)
Theorem sentinel_results_tell (a b : Z) :
  in_int a -> in_int b ->
  (INT_MIN < a ->
     exists r, FST_MINUS_ONE_INT a b = Value r /\
               (r = INT_MAX <-> a = INT_MAX /\ b = INT_MAX)) /\
  (S1ST_IF_SND_MAX_INT a b = Value a <-> a = INT_MAX \/ b = INT_MAX) /\
  (b <> INT_MAX -> S1ST_IF_SND_MAX_INT a b = Value INT_MAX).
Proof.
  intros Ha Hb. split; [| split].
  - intros Hmin.
    destruct (Z.eq_dec a INT_MAX) as [Ea | Ea];
      destruct (Z.eq_dec b INT_MAX) as [Eb | Eb].
    + subst. exists INT_MAX. split; [reflexivity | tauto].
    + exists (a - 1). split; [apply FST_MINUS_ONE_INT_decrements; tauto |].
      unfold in_int, INT_MIN, INT_MAX in *. split; [lia | tauto].
    + exists (a - 1). split; [apply FST_MINUS_ONE_INT_decrements; tauto |].
      unfold in_int, INT_MIN, INT_MAX in *. split; [lia | tauto].
    + exists (a - 1). split; [apply FST_MINUS_ONE_INT_decrements; tauto |].
      unfold in_int, INT_MIN, INT_MAX in *. split; [lia | tauto].
  - sentinel_cases; split; intros H; try tauto; try congruence.
    + injection H as H. auto.
    + destruct H as [H | H]; congruence.
  - intros Hne. sentinel_cases; contradiction.
Qed.

Lemma sentinel_results_tell_witness :
  exists r, FST_MINUS_ONE_INT 4 9 = Value r /\
            (r = INT_MAX <-> 4 = INT_MAX /\ 9 = INT_MAX).
Proof.
  apply (proj1 (sentinel_results_tell 4 9
           ltac:(unfold in_int, INT_MIN, INT_MAX; lia)
           ltac:(unfold in_int, INT_MIN, INT_MAX; lia))).
  unfold INT_MIN. lia.
Defined.

(** ** The packed words as reductions *)

Lemma SELECT_MIN_WEIGHT_UINT_value (a b : Z) :
  in_uint a -> in_uint b ->
  SELECT_MIN_WEIGHT_UINT a b = Value (if weight_of a <=? weight_of b then a else b).
Proof.
  intros Ha Hb. rewrite SELECT_MIN_WEIGHT_UINT_repacks.
  destruct (weight_of a <=? weight_of b); now rewrite pack_unpack.
Qed.

Lemma CONSTRUCT_PAIR_UINT_value (a b : Z) :
  in_uint b ->
  CONSTRUCT_PAIR_UINT a b = Value (weight_of b * 2097152 + value_of a).
Proof.
  intros Hb. change (CONSTRUCT_PAIR_UINT a b)
    with (Value (pack (weight_of b) (value_of a))).
  rewrite pack_value; [reflexivity | now apply weight_of_range | apply value_of_range].
Qed.

Lemma word_of_fields (word : Z) :
  in_uint word -> weight_of word * 2097152 + value_of word = word.
Proof.
  intros H. rewrite <- (pack_unpack word H) at 3.
  symmetry. apply pack_value; [now apply weight_of_range | apply value_of_range].
Qed.

Lemma fields_in_uint (weight value : Z) :
  0 <= weight <= 2047 -> 0 <= value <= 2097151 ->
  in_uint (weight * 2097152 + value).
Proof. unfold in_uint, UINT_MAX. lia. Qed.

(** X16: on 32-bit words [SELECT_MIN_WEIGHT_UINT] returns one of its
    operands, the weight of the result is the smaller of the two weights, the
    operator is idempotent and associative, and it is commutative on a pair
    exactly when the weights differ or the words are equal. *)
Theorem SELECT_MIN_WEIGHT_UINT_laws (a b c : Z) :
  in_uint a -> in_uint b -> in_uint c ->
  (SELECT_MIN_WEIGHT_UINT a b = Value a \/ SELECT_MIN_WEIGHT_UINT a b = Value b) /\
  (exists r, SELECT_MIN_WEIGHT_UINT a b = Value r /\
             weight_of r = Z.min (weight_of a) (weight_of b)) /\
  SELECT_MIN_WEIGHT_UINT a a = Value a /\
  fold_left2 SELECT_MIN_WEIGHT_UINT a b c = fold_right2 SELECT_MIN_WEIGHT_UINT a b c /\
  (SELECT_MIN_WEIGHT_UINT a b = SELECT_MIN_WEIGHT_UINT b a
   <-> weight_of a <> weight_of b \/ a = b).
Proof.
  intros Ha Hb Hc.
  split; [| split; [| split; [| split]]].
  - rewrite SELECT_MIN_WEIGHT_UINT_value by assumption.
    destruct (weight_of a <=? weight_of b); auto.
  - rewrite SELECT_MIN_WEIGHT_UINT_value by assumption.
    eexists; split; [reflexivity |].
    destruct (Z.leb_spec (weight_of a) (weight_of b)); lia.
  - rewrite SELECT_MIN_WEIGHT_UINT_value by assumption.
    now rewrite Z.leb_refl.
  - unfold fold_left2, fold_right2.
    rewrite (SELECT_MIN_WEIGHT_UINT_value a b), (SELECT_MIN_WEIGHT_UINT_value b c)
      by assumption.
    cbn [bind].
    destruct (Z.leb_spec (weight_of a) (weight_of b));
      destruct (Z.leb_spec (weight_of b) (weight_of c));
      rewrite !SELECT_MIN_WEIGHT_UINT_value by assumption; f_equal;
      repeat match goal with
             | |- context [Z.leb ?x ?y] => destruct (Z.leb_spec x y)
             end; try reflexivity; lia.
  - rewrite !SELECT_MIN_WEIGHT_UINT_value by assumption.
    destruct (Z.leb_spec (weight_of a) (weight_of b));
      destruct (Z.leb_spec (weight_of b) (weight_of a));
      split; intros Heq; try (left; lia); try reflexivity; try lia.
    + injection Heq as Heq. now right.
    + destruct Heq as [Heq | Heq]; [lia | now rewrite Heq].
Qed.

Lemma SELECT_MIN_WEIGHT_UINT_laws_witness :
  SELECT_MIN_WEIGHT_UINT 2097156 2097161 <> SELECT_MIN_WEIGHT_UINT 2097161 2097156.
Proof.
  intros H.
  destruct (proj1 (proj2 (proj2 (proj2 (proj2
              (SELECT_MIN_WEIGHT_UINT_laws 2097156 2097161 0
                 ltac:(unfold in_uint, UINT_MAX; lia)
                 ltac:(unfold in_uint, UINT_MAX; lia)
                 ltac:(unfold in_uint, UINT_MAX; lia)))))) H) as [Hw | Hw].
  - apply Hw. reflexivity.
  - discriminate Hw.
Defined.

(** X17: on 32-bit words [CONSTRUCT_PAIR_UINT a b] is the word with the
    weight of [b] and the value of [a]; pairing a word with itself gives the
    word back, and in a chain only the value of the first and the weight of
    the last operand matter, so the operator is associative. *)
Theorem CONSTRUCT_PAIR_UINT_laws (a b c : Z) :
  in_uint a -> in_uint b -> in_uint c ->
  (exists word, CONSTRUCT_PAIR_UINT a b = Value word /\ in_uint word /\
     weight_of word = weight_of b /\ value_of word = value_of a) /\
  CONSTRUCT_PAIR_UINT a a = Value a /\
  fold_left2 CONSTRUCT_PAIR_UINT a b c = CONSTRUCT_PAIR_UINT a c /\
  fold_right2 CONSTRUCT_PAIR_UINT a b c = CONSTRUCT_PAIR_UINT a c.
Proof.
  intros Ha Hb Hc.
  pose proof (weight_of_range b Hb) as Hwb.
  pose proof (weight_of_range c Hc) as Hwc.
  pose proof (value_of_range a) as Hva.
  pose proof (value_of_range b) as Hvb.
  split; [| split; [| split]].
  - exists (weight_of b * 2097152 + value_of a).
    split; [now apply CONSTRUCT_PAIR_UINT_value |].
    split; [now apply fields_in_uint |].
    pose proof (unpack_sum _ _ Hwb Hva) as Hu. unfold unpack in Hu.
    exact (conj (f_equal fst Hu) (f_equal snd Hu)).
  - rewrite CONSTRUCT_PAIR_UINT_value by assumption. f_equal.
    now apply word_of_fields.
  - unfold fold_left2. rewrite (CONSTRUCT_PAIR_UINT_value a b) by assumption.
    cbn [bind]. rewrite !CONSTRUCT_PAIR_UINT_value by assumption.
    pose proof (unpack_sum _ _ Hwb Hva) as Hu. unfold unpack in Hu.
    now rewrite (f_equal snd Hu : value_of _ = _).
  - unfold fold_right2. rewrite (CONSTRUCT_PAIR_UINT_value b c) by assumption.
    cbn [bind].
    rewrite CONSTRUCT_PAIR_UINT_value by (now apply fields_in_uint).
    rewrite (CONSTRUCT_PAIR_UINT_value a c) by assumption.
    pose proof (unpack_sum _ _ Hwc Hvb) as Hu. unfold unpack in Hu.
    now rewrite (f_equal fst Hu : weight_of _ = _).
Qed.

Lemma CONSTRUCT_PAIR_UINT_laws_witness :
  fold_left2 CONSTRUCT_PAIR_UINT 2097156 4194313 6291463
  = CONSTRUCT_PAIR_UINT 2097156 6291463.
Proof.
  apply (proj1 (proj2 (proj2
           (CONSTRUCT_PAIR_UINT_laws 2097156 4194313 6291463
              ltac:(unfold in_uint, UINT_MAX; lia)
              ltac:(unfold in_uint, UINT_MAX; lia)
              ltac:(unfold in_uint, UINT_MAX; lia))))).
Defined.

(** ** The select predicates *)

(** X18: on every integer exactly one of [LTZERO_INT], [EQZERO_INT] and
    [GTZERO_INT] holds, and [NQZERO_INT], [GEZERO_INT], [LEZERO_INT] are the
    negations of [EQZERO_INT], [LTZERO_INT], [GTZERO_INT]. *)
Theorem signed_select_predicates (a : Z) :
  ((LTZERO_INT a, EQZERO_INT a, GTZERO_INT a) = (true, false, false) \/
   (LTZERO_INT a, EQZERO_INT a, GTZERO_INT a) = (false, true, false) \/
   (LTZERO_INT a, EQZERO_INT a, GTZERO_INT a) = (false, false, true)) /\
  NQZERO_INT a = negb (EQZERO_INT a) /\
  GEZERO_INT a = negb (LTZERO_INT a) /\
  LEZERO_INT a = negb (GTZERO_INT a).
Proof.
  unfold LTZERO_INT, EQZERO_INT, GTZERO_INT, NQZERO_INT, GEZERO_INT, LEZERO_INT.
  rewrite Z.gtb_ltb, Z.geb_leb.
  destruct (Z.ltb_spec a 0); destruct (Z.eqb_spec a 0); destruct (Z.ltb_spec 0 a);
    destruct (Z.leb_spec 0 a); destruct (Z.leb_spec a 0); try lia; auto 6.
Qed.

(** X19: on unsigned values the sign tests degenerate: [LTZERO_UINT] never
    holds, [GEZERO_UINT] always holds, [LEZERO_UINT] is [EQZERO_UINT] and
    [GTZERO_UINT] is [NQZERO_UINT]. *)
Theorem unsigned_select_predicates (a : Z) :
  in_uint a ->
  LTZERO_UINT a = NEVER_UINT a /\
  GEZERO_UINT a = ALWAYS_UINT a /\
  LEZERO_UINT a = EQZERO_UINT a /\
  GTZERO_UINT a = NQZERO_UINT a.
Proof.
  unfold in_uint, LTZERO_UINT, NEVER_UINT, GEZERO_UINT, ALWAYS_UINT, LEZERO_UINT,
    EQZERO_UINT, GTZERO_UINT, NQZERO_UINT.
  intros Ha. rewrite Z.gtb_ltb, Z.geb_leb.
  destruct (Z.ltb_spec a 0); destruct (Z.eqb_spec a 0); destruct (Z.ltb_spec 0 a);
    destruct (Z.leb_spec 0 a); destruct (Z.leb_spec a 0); try lia; auto.
Qed.

Lemma unsigned_select_predicates_witness : LEZERO_UINT 9 = EQZERO_UINT 9.
Proof.
  apply (proj1 (proj2 (proj2 (unsigned_select_predicates 9
           ltac:(unfold in_uint, UINT_MAX; lia))))).
Defined.

(** X20: the float predicates.  On NaN every comparison with zero and with
    negative infinity is false and [NQZERO_FLOAT] is true; both signed zeros
    pass [EQZERO_FLOAT]; on every value other than NaN exactly one of
    [LTZERO_FLOAT], [EQZERO_FLOAT], [GTZERO_FLOAT] holds; [GEZERO_FLOAT] is
    the negation of [LTZERO_FLOAT], and [LEZERO_FLOAT] of [GTZERO_FLOAT],
    exactly off NaN; a value that passes [EQUALS_MINF_FLOAT] passes
    [LTZERO_FLOAT]. *)
Theorem float_select_predicates (a : spec_float) :
  (a = S754_nan ->
     EQZERO_FLOAT a = false /\ GTZERO_FLOAT a = false /\ GEZERO_FLOAT a = false /\
     LTZERO_FLOAT a = false /\ LEZERO_FLOAT a = false /\
     EQUALS_MINF_FLOAT a = false /\ NQZERO_FLOAT a = true) /\
  (forall s, EQZERO_FLOAT (S754_zero s) = true) /\
  (a <> S754_nan ->
     (LTZERO_FLOAT a, EQZERO_FLOAT a, GTZERO_FLOAT a) = (true, false, false) \/
     (LTZERO_FLOAT a, EQZERO_FLOAT a, GTZERO_FLOAT a) = (false, true, false) \/
     (LTZERO_FLOAT a, EQZERO_FLOAT a, GTZERO_FLOAT a) = (false, false, true)) /\
  NQZERO_FLOAT a = negb (EQZERO_FLOAT a) /\
  (GEZERO_FLOAT a = negb (LTZERO_FLOAT a) <-> a <> S754_nan) /\
  (LEZERO_FLOAT a = negb (GTZERO_FLOAT a) <-> a <> S754_nan) /\
  (EQUALS_MINF_FLOAT a = true -> LTZERO_FLOAT a = true).
Proof.
  split; [intros ->; repeat split |].
  split; [intros s; destruct s; reflexivity |].
  split.
  { intros Hnan. destruct a as [s | s | | s m e]; try destruct s; cbn; auto.
    contradiction. }
  split; [reflexivity |].
  split.
  { destruct a as [s | s | | s m e]; try destruct s; cbn;
      split; intros H; try reflexivity; try discriminate; try congruence. }
  split.
  { destruct a as [s | s | | s m e]; try destruct s; cbn;
      split; intros H; try reflexivity; try discriminate; try congruence. }
  destruct a as [s | s | | s m e]; try destruct s; cbn; congruence.
Qed.

Lemma float_select_predicates_witness :
  (LTZERO_FLOAT NEG_INFINITY, EQZERO_FLOAT NEG_INFINITY, GTZERO_FLOAT NEG_INFINITY)
  = (true, false, false).
Proof.
  destruct (proj1 (proj2 (proj2 (float_select_predicates NEG_INFINITY)))
              ltac:(discriminate)) as [H | [H | H]].
  - exact H.
  - discriminate H.
  - discriminate H.
Defined.

(** ** Keys across the three shapes *)

Local Open Scope string_scope.

Lemma no_underscore_append (s t : string) :
  no_underscore (s ++ String "_" t) = false.
Proof.
  induction s as [| c s IH]; simpl.
  - reflexivity.
  - rewrite IH. apply andb_false_r.
Qed.

Lemma no_underscore_app (s t : string) :
  no_underscore s = true -> no_underscore t = true -> no_underscore (s ++ t) = true.
Proof.
  induction s as [| c s IH]; simpl; [auto |].
  intros Hs Ht. apply andb_true_iff in Hs. destruct Hs as [Hc Hs].
  rewrite Hc. simpl. now apply IH.
Qed.

(** A key splits at its last underscore. *)
Lemma split_at_last_underscore (n1 n2 s1 s2 : string) :
  no_underscore s1 = true -> no_underscore s2 = true ->
  n1 ++ "_" ++ s1 = n2 ++ "_" ++ s2 -> n1 = n2 /\ s1 = s2.
Proof.
  intros H1 H2. revert n2.
  induction n1 as [| c n1 IH]; intros [| c' n2] Heq; simpl in Heq.
  - injection Heq as Heq. now split.
  - injection Heq as _ Heq. rewrite Heq, no_underscore_append in H1.
    discriminate H1.
  - injection Heq as _ Heq. rewrite <- Heq, no_underscore_append in H2.
    discriminate H2.
  - injection Heq as -> Heq. destruct (IH n2 Heq) as [-> ->]. now split.
Qed.

Section KeysAcrossShapes.
Variable get_code : Type_ -> string.
Hypothesis Hcanonical : canonical_codes get_code.
Hypothesis Hseparable : separable_codes get_code.

Lemma signature_codes_no_underscore (s : Shape) (d : Domain) :
  no_underscore (signature_codes get_code s d) = true.
Proof.
  destruct (Hseparable d) as [_ Hd].
  destruct s; simpl; repeat apply no_underscore_app; assumption.
Qed.

Lemma signature_codes_shape (s1 s2 : Shape) (d1 d2 : Domain) :
  signature_codes get_code s1 d1 = signature_codes get_code s2 d2 -> s1 = s2.
Proof.
  destruct Hcanonical as [_ Hlen]. specialize (Hlen d1 d2).
  destruct (Hseparable d1) as [Hne _].
  assert (Hpos : (0 < String.length (get_code (type_of d1)))%nat).
  { destruct (get_code (type_of d1)); [contradiction | simpl; lia]. }
  intros Heq. apply (f_equal String.length) in Heq.
  destruct s1, s2; simpl in Heq; rewrite ?length_append in Heq;
    try reflexivity; lia.
Qed.

Lemma key_identifies (i1 i2 : Invocation) :
  key_of get_code i1 = key_of get_code i2 ->
  shape_of i1 = shape_of i2 /\ name_of i1 = name_of i2 /\
  domain_of i1 = domain_of i2.
Proof.
  intros Heq. rewrite !key_of_unfold in Heq. injection Heq as Heq.
  apply split_at_last_underscore in Heq;
    try apply signature_codes_no_underscore.
  destruct Heq as [Hn Hsig].
  pose proof (signature_codes_shape _ _ _ _ Hsig) as Hs.
  rewrite Hs in Hsig.
  apply (signature_codes_inj get_code Hcanonical) in Hsig. auto.
Qed.

End KeysAcrossShapes.

(** X21: given type codes that differ between the families, have one length,
    are not empty and contain no underscore, the key a factory computes
    identifies the invocation: two invocations of any of the nine factories
    with equal keys have the same shape (unary, binary, select), the same
    name and the same family. *)
Theorem key_identifies_invocation (get_code : Type_ -> string) (i1 i2 : Invocation) :
  canonical_codes get_code -> separable_codes get_code ->
  key_of get_code i1 = key_of get_code i2 ->
  shape_of i1 = shape_of i2 /\ name_of i1 = name_of i2 /\
  domain_of i1 = domain_of i2.
Proof. intros Hc Hs. now apply key_identifies. Qed.

Lemma key_identifies_invocation_witness :
  key_of letter_code (InvokeUnary SignedInteger "EQZERO_I" "return a;" IDENTITY_INT)
  <> key_of letter_code (InvokeSelect SignedInteger "EQZERO_I_I" "return a == 0;"
                           EQZERO_INT).
Proof.
  intros Heq.
  assert (Hc : canonical_codes letter_code).
  { split; intros d1 d2; destruct d1, d2; simpl;
      first [reflexivity | discriminate | intros _; reflexivity]. }
  assert (Hs : separable_codes letter_code).
  { intros d; destruct d; simpl; split; first [discriminate | reflexivity]. }
  destruct (key_identifies_invocation letter_code _ _ Hc Hs Heq) as [Hshape _].
  discriminate Hshape.
Defined.

(** ** The globals and the lines of [register_ops] *)

Section Distinct.
Context {A : Type} (eqb : A -> A -> bool).
Hypothesis eqb_refl : forall x, eqb x x = true.
Hypothesis eqb_sym : forall x y, eqb x y = eqb y x.

Lemma existsb_eqb_false (x : A) (l : list A) :
  existsb (eqb x) l = false -> forall y, In y l -> eqb x y = false.
Proof.
  induction l as [| a l IH]; simpl; [contradiction |].
  intros H y [<- | Hy]; apply orb_false_iff in H; destruct H as [Ha Hl]; auto.
Qed.

Lemma distinctb_NoDup (l : list A) : distinctb eqb l = true -> NoDup l.
Proof.
  induction l as [| a l IH]; simpl; [constructor |].
  intros H. apply andb_true_iff in H. destruct H as [Ha Hl].
  apply negb_true_iff in Ha. constructor; [| now apply IH].
  intros Hin. pose proof (existsb_eqb_false a l Ha a Hin) as Hf.
  rewrite eqb_refl in Hf. discriminate Hf.
Qed.

Lemma distinctb_unique (l : list A) :
  distinctb eqb l = true ->
  forall x y, In x l -> In y l -> eqb x y = true -> x = y.
Proof.
  induction l as [| a l IH]; simpl; [contradiction |].
  intros H x y Hx Hy Hxy. apply andb_true_iff in H. destruct H as [Ha Hl].
  apply negb_true_iff in Ha.
  destruct Hx as [<- | Hx]; destruct Hy as [<- | Hy].
  - reflexivity.
  - rewrite (existsb_eqb_false _ _ Ha y Hy) in Hxy. discriminate Hxy.
  - rewrite eqb_sym, (existsb_eqb_false _ _ Ha x Hx) in Hxy. discriminate Hxy.
  - now apply IH.
Qed.

End Distinct.

Lemma Shape_eqb_eq (s t : Shape) : Shape_eqb s t = true <-> s = t.
Proof. destruct s, t; simpl; split; congruence. Qed.

Lemma Type_eqb_eq (s t : Type_) : Type_eqb s t = true <-> s = t.
Proof.
  unfold Type_eqb. destruct (Type_eq_dec s t); split; congruence.
Qed.

Lemma pair_eqb_eq (g h : Shape * string) : pair_eqb g h = true <-> g = h.
Proof.
  destruct g as [s n], h as [t m]. unfold pair_eqb. simpl.
  rewrite andb_true_iff, Shape_eqb_eq, String.eqb_eq. split.
  - intros [-> ->]. reflexivity.
  - intros H. injection H as -> ->. now split.
Qed.

Lemma same_signature_iff (l m : Shape * string * string * Type_) :
  same_signature l m = true <->
  line_shape l = line_shape m /\ line_prefix l = line_prefix m /\
  line_type l = line_type m.
Proof.
  unfold same_signature.
  rewrite !andb_true_iff, Shape_eqb_eq, String.eqb_eq, Type_eqb_eq. tauto.
Qed.

Lemma same_signature_refl (l : Shape * string * string * Type_) :
  same_signature l l = true.
Proof. apply same_signature_iff. auto. Qed.

Lemma same_signature_sym (l m : Shape * string * string * Type_) :
  same_signature l m = same_signature m l.
Proof.
  destruct (same_signature l m) eqn:E1; destruct (same_signature m l) eqn:E2;
    try reflexivity.
  - apply same_signature_iff in E1. destruct E1 as [H1 [H2 H3]].
    rewrite <- E2. symmetry. apply same_signature_iff. auto.
  - apply same_signature_iff in E2. destruct E2 as [H1 [H2 H3]].
    rewrite <- E1. apply same_signature_iff. auto.
Qed.

(** X22: [register_ops] has one line for every global that [op.cpp]
    defines, in the order of the definitions and with the shape of the
    global; no global is defined or filled twice; and the lines whose lambda
    is embedded above are all the lines except the float ones of shape unary
    and binary. *)
Theorem register_ops_fills_every_global :
  map (fun l => (line_shape l, line_fname l)) register_ops_lines = globals /\
  NoDup (map snd globals) /\
  List.length globals = 113%nat /\
  map decl_head register_ops = filter embedded_line register_ops_lines.
Proof.
  split; [vm_compute; reflexivity |].
  split.
  { apply (distinctb_NoDup String.eqb String.eqb_refl). vm_compute. reflexivity. }
  split; vm_compute; reflexivity.
Qed.

(** X23: every global [op.hpp] declares is defined in [op.cpp] with the same
    shape; four globals that [register_ops] fills are not declared in the
    header: [SELECT_MIN_WEIGHT_UINT], [CONSTRUCT_PAIR_UINT],
    [EQUALS_MAX_UINT] and [NEQUALS_MAX_UINT]. *)
Theorem header_declares_most_globals :
  (forall g, In g header_externs -> In g globals) /\
  filter (fun g => negb (existsb (pair_eqb g) header_externs)) globals
  = [(Binary, "SELECT_MIN_WEIGHT_UINT"); (Binary, "CONSTRUCT_PAIR_UINT");
     (Select, "EQUALS_MAX_UINT"); (Select, "NEQUALS_MAX_UINT")].
Proof.
  split; [| vm_compute; reflexivity].
  assert (Hall : forallb (fun g => existsb (pair_eqb g) globals) header_externs = true)
    by (vm_compute; reflexivity).
  intros g Hg. rewrite forallb_forall in Hall. specialize (Hall g Hg).
  apply existsb_exists in Hall. destruct Hall as [h [Hh Heq]].
  apply pair_eqb_eq in Heq. now subst.
Qed.

Lemma header_declares_most_globals_witness : In (Select, "EQUALS_MINF_FLOAT") globals.
Proof.
  apply (proj1 header_declares_most_globals).
  unfold header_externs. repeat (first [left; reflexivity | right]).
Defined.

(** X24: no two lines of [register_ops] have the same shape, key prefix and
    value type; the name of every global ends with the suffix of its line's
    value type; and the key prefix of a line is the global's name without
    that suffix, or the whole name, except on the three IDENTITY lines,
    whose prefix is spelled IDENSTITY. *)
Theorem register_ops_line_heads :
  (forall l m, In l register_ops_lines -> In m register_ops_lines ->
     line_shape l = line_shape m -> line_prefix l = line_prefix m ->
     line_type l = line_type m -> l = m) /\
  (forall l, In l register_ops_lines ->
     ends_with (type_suffix (line_type l)) (line_fname l) = true) /\
  (forall l, In l register_ops_lines ->
     line_fname l = line_prefix l ++ type_suffix (line_type l) \/
     line_fname l = line_prefix l \/
     (line_prefix l = "IDENSTITY" /\
      line_fname l = "IDENTITY" ++ type_suffix (line_type l))).
Proof.
  split; [| split].
  - intros l m Hl Hm Hs Hp Ht.
    apply (distinctb_unique same_signature same_signature_sym register_ops_lines);
      [vm_compute; reflexivity | assumption | assumption |].
    apply same_signature_iff. auto.
  - apply Forall_forall. unfold register_ops_lines.
    repeat (constructor; [reflexivity |]). constructor.
  - apply Forall_forall. unfold register_ops_lines.
    repeat (constructor;
            [first [left; reflexivity | right; left; reflexivity
                   | right; right; split; reflexivity] |]).
    constructor.
Qed.

Lemma register_ops_line_heads_witness :
  ends_with "_UINT" "EQUALS_MAX_UINT" = true.
Proof.
  apply (proj1 (proj2 register_ops_line_heads)
           (Select, "EQUALS_MAX_UINT", "EQUALS_MAX", UINT)).
  unfold register_ops_lines. repeat (first [left; reflexivity | right]).
Defined.
